(** * emailer.py: bulk email merge tool

    A shallow embedding of [src/emailer.py] and the properties of its
    merge-and-compose pipeline: [get_data] (row consolidation),
    [send] (message composition) and [send_batch] (the transmission loop).

    Python values are modelled as follows.

    - [str] is [string], one character per code point, for the code points
      below 256; [isspace], [splitlines] and [casefold] follow [str] on
      them, the result of [casefold] being a sequence of code points.
    - [dict] is an association list in insertion order, with Python's rule
      that assigning to an existing key keeps the key's position.
    - an exception is a value of [exn]; fallible code returns [result].
    - [EmailMessage] is the record of the values stored in it; storing a
      header checks it for line breaks as the library does.
    - the SMTP session is the list of messages transmitted so far, threaded
      through [send] and [send_batch]; leaving it sends QUIT.
    - the libraries the program calls (jinja2, pycmarkgfm, bs4 with lxml,
      smtplib) are the fields of [Libraries]; [csv.DictReader] and the
      searches of bs4 that [send] uses are written out. *)

From stdpp Require Import base option list strings.
From Stdlib Require Import Ascii.

Local Open Scope string_scope.
Local Open Scope list_scope.

#[local] Set Warnings "-clear-no-such-hyp".

(** ** Exceptions and results *)

Inductive exn : Type :=
| KeyError (key : string)
| TypeError (msg : string)
| ValueError (msg : string)
| TemplateError (msg : string)
| SMTPException (msg : string).

Inductive result (A : Type) : Type :=
| Ok (a : A)
| Raise (e : exn).

Arguments Ok {A} a.
Arguments Raise {A} e.

Definition bind {A B : Type} (r : result A) (k : A -> result B) : result B :=
  match r with
  | Ok a => k a
  | Raise e => Raise e
  end.

Notation "x <- r ;; k" := (bind r (fun x => k))
  (at level 100, r at next level, right associativity).

(** [for x in xs: acc = body(acc, x)], stopping at the first exception. *)
Fixpoint for_each {A S : Type} (body : S -> A -> result S) (xs : list A) (acc : S)
  : result S :=
  match xs with
  | [] => Ok acc
  | x :: rest => acc' <- body acc x ;; for_each body rest acc'
  end.

(** ** Dictionaries *)

Section dict.
Context {K V : Type} `{EqDecision K}.

Fixpoint dict_get (k : K) (d : list (K * V)) : option V :=
  match d with
  | [] => None
  | (k', v) :: d' => if decide (k = k') then Some v else dict_get k d'
  end.

(** [d[k] = v] *)
Fixpoint dict_set (k : K) (v : V) (d : list (K * V)) : list (K * V) :=
  match d with
  | [] => [(k, v)]
  | (k', v') :: d' =>
      if decide (k = k') then (k', v) :: d' else (k', v') :: dict_set k v d'
  end.

(** [del d[k]]; [None] stands for the [KeyError] of a missing key. *)
Fixpoint dict_del (k : K) (d : list (K * V)) : option (list (K * V)) :=
  match d with
  | [] => None
  | (k', v') :: d' =>
      if decide (k = k') then Some d'
      else option_map (cons (k', v')) (dict_del k d')
  end.

Definition dict_keys (d : list (K * V)) : list K := map fst d.
Definition dict_values (d : list (K * V)) : list V := map snd d.
End dict.

(** [d.setdefault(k, []).append(v)] *)
Definition setdefault_append {K V : Type} `{EqDecision K}
    (k : K) (v : V) (d : list (K * list V)) : list (K * list V) :=
  match dict_get k d with
  | Some children => dict_set k (children ++ [v]) d
  | None => dict_set k [v] d
  end.

(** ** Strings *)

(** The code points of a string. *)
Fixpoint codepoints (s : string) : list nat :=
  match s with
  | EmptyString => []
  | String c s' => nat_of_ascii c :: codepoints s'
  end.

(** [str.casefold] on one code point below 256: the Latin capital letters
    fold to the small ones, the micro sign to the Greek small mu (956) and
    the sharp s to two letters s; the others are kept. *)
Definition casefold_char (c : ascii) : list nat :=
  let n := nat_of_ascii c in
  if (65 <=? n)%nat && (n <=? 90)%nat then [n + 32]
  else if (n =? 181)%nat then [956]
  else if ((192 <=? n)%nat && (n <=? 214)%nat) || ((216 <=? n)%nat && (n <=? 222)%nat)
  then [n + 32]
  else if (n =? 223)%nat then [115; 115]
  else [n].

(** [s.casefold()], as code points. *)
Fixpoint casefold (s : string) : list nat :=
  match s with
  | EmptyString => []
  | String c s' => casefold_char c ++ casefold s'
  end.

(** [s.startswith(p)] on code points. *)
Fixpoint startswith (s p : list nat) : bool :=
  match p, s with
  | [], _ => true
  | _ :: _, [] => false
  | b :: p', a :: s' => (a =? b)%nat && startswith s' p'
  end.

(** ** csv.DictReader *)

(** The value stored under a key of a row: a field of the line, [None]
    ([restval]) for a field the line lacks, or the list of surplus fields
    stored under the key [None] ([restkey]). *)
Inductive cell : Type :=
| CStr (s : string)
| CNone
| CRest (fields : list string).

#[global] Instance cell_eq_dec : EqDecision cell.
Proof. solve_decision. Defined.

(** Keys of a row: a column name, or [None] for [restkey]. *)
Definition row : Type := list (option string * cell).

(** The consolidated mapping of one group. *)
Definition mapping : Type := list (option string * list cell).

(** [reader.fieldnames]: the first record, if any. *)
Definition fieldnames (records : list (list string)) : option (list string) :=
  head records.

(** [DictReader.__next__] on one non-blank record. *)
Definition next_row (fields record : list string) : row :=
  let d := foldl (fun d kv => dict_set (Some (fst kv)) (CStr (snd kv)) d)
                 [] (zip fields record) in
  let lf := length fields in
  let lr := length record in
  if (lf <? lr)%nat then dict_set None (CRest (drop lf record)) d
  else if (lr <? lf)%nat then
    foldl (fun d key => dict_set (Some key) CNone d) d (drop lr fields)
  else d.

Definition blank (record : list string) : bool :=
  match record with
  | [] => true
  | _ :: _ => false
  end.

(** The rows the reader yields: the records after the header, blank ones
    skipped. *)
Definition DictReader (records : list (list string)) : list row :=
  match records with
  | [] => []
  | fields :: rest => map (next_row fields) (filter (fun r => negb (blank r)) rest)
  end.

(** ** get_data *)

(** Truth value of [reader.fieldnames]: [None] and [[]] are false. *)
Definition truthy_fieldnames (f : option (list string)) : bool :=
  match f with
  | Some (_ :: _) => true
  | _ => false
  end.

Definition select_groupby (f : option (list string)) : string :=
  let groupby := "Group" in
  if truthy_fieldnames f && negb (bool_decide (groupby ∈ default [] f))
  then "EmailAddress" else groupby.

(** Body of the first loop: [groups.setdefault(row[groupby], []).append(row)]. *)
Definition add_member (groupby : string)
    (groups : list (cell * list row)) (r : row) : result (list (cell * list row)) :=
  match dict_get (Some groupby) r with
  | None => Raise (KeyError groupby)
  | Some (CRest _) => Raise (TypeError "unhashable type: 'list'")
  | Some key => Ok (setdefault_append key r groups)
  end.

(** The inner loops: every item of every member is appended to the
    sequence of its key. *)
Definition merge_member (members : mapping) (member : row) : mapping :=
  foldl (fun m kv => setdefault_append (fst kv) (snd kv) m) members member.

(** Body of the second loop. *)
Definition consolidate (groupby : string) (group : list row) : result mapping :=
  let members := foldl merge_member [] group in
  if bool_decide (casefold groupby = codepoints "group") then
    match dict_del (Some groupby) members with
    | Some members' => Ok members'
    | None => Raise (KeyError groupby)
    end
  else Ok members.

(** [get_data], lines 28 to 46, on the records that [csv.reader] yields
    from the opened file; opening and decoding the file (line 27) and the
    errors of the csv parser are not modelled. *)
Definition get_data (records : list (list string)) : result (list mapping) :=
  let groupby := select_groupby (fieldnames records) in
  groups <- for_each (add_member groupby) (DictReader records) [] ;;
  for_each (fun consolidated group =>
              members <- consolidate groupby group ;;
              Ok (consolidated ++ [members]))
           (dict_values groups) [].

(** ** Strings, continued *)

(** [str.isspace] on the code points below 256. *)
Definition isspace (c : ascii) : bool :=
  let n := nat_of_ascii c in
  ((9 <=? n)%nat && (n <=? 13)%nat) || ((28 <=? n)%nat && (n <=? 32)%nat)
  || (n =? 133)%nat || (n =? 160)%nat.

Fixpoint lstrip (s : string) : string :=
  match s with
  | EmptyString => EmptyString
  | String c s' => if isspace c then lstrip s' else s
  end.

Fixpoint rstrip (s : string) : string :=
  match s with
  | EmptyString => EmptyString
  | String c s' =>
      match rstrip s' with
      | EmptyString => if isspace c then EmptyString else String c EmptyString
      | t => String c t
      end
  end.

(** [s.strip()] *)
Definition strip (s : string) : string := rstrip (lstrip s).

(** The line boundaries of [str.splitlines] below 256. *)
Definition is_linebreak (c : ascii) : bool :=
  let n := nat_of_ascii c in
  ((10 <=? n)%nat && (n <=? 13)%nat) || ((28 <=? n)%nat && (n <=? 30)%nat)
  || (n =? 133)%nat.

(** [s.splitlines()]; [after_cr] tells that the character before was a
    carriage return, whose line feed belongs to the same boundary. *)
Fixpoint splitlines_from (after_cr : bool) (s : string) : list string :=
  match s with
  | EmptyString => []
  | String c s' =>
      if after_cr && (nat_of_ascii c =? 10)%nat then splitlines_from false s'
      else if is_linebreak c
      then EmptyString :: splitlines_from (nat_of_ascii c =? 13)%nat s'
      else match splitlines_from false s' with
           | [] => [String c EmptyString]
           | l :: ls => String c l :: ls
           end
  end.

Definition splitlines (s : string) : list string := splitlines_from false s.

(** The test of the email policy on a string stored as a header:
    [len(value.splitlines()) > 1]. *)
Definition header_refused (value : string) : bool :=
  (1 <? length (splitlines value))%nat.

Definition header_error : exn :=
  ValueError "Header values may not contain linefeed or carriage return characters".

(** [msg[name] = value] for a string [value]. *)
Definition set_header (value : string) : result unit :=
  if header_refused value then Raise header_error else Ok tt.

(** [s.split(sep, 1)] for a one-character separator. *)
Fixpoint split_once (sep : ascii) (s : string) : list string :=
  match s with
  | EmptyString => [EmptyString]
  | String c s' =>
      if Ascii.eqb c sep then [EmptyString; s']
      else match split_once sep s' with
           | h :: t => String c h :: t
           | [] => []
           end
  end.

(** [l[-1]] of a list of strings. *)
Definition last_item (l : list string) : string := default EmptyString (last l).

(** ["".join(l)] *)
Definition join (l : list string) : string := foldr String.append EmptyString l.

(** ** The parsed document (bs4) *)

(** The classes of string nodes; only [Comment] is told apart by [send]. *)
Inductive string_class : Type :=
| NavigableString | Comment | CData | ProcessingInstruction | Declaration | Doctype.

#[local] Unset Elimination Schemes.
Inductive node : Type :=
| Tag (name : string) (attrs : list (string * string)) (children : list node)
| Str (cls : string_class) (text : string).
#[local] Set Elimination Schemes.

(** [find(string=p)] below a node: the first string node, in document
    order, that [p] accepts. *)
Fixpoint find_string (p : string_class -> string -> bool) (n : node)
  : option (string_class * string) :=
  match n with
  | Str cls x => if p cls x then Some (cls, x) else None
  | Tag _ _ children =>
      (fix first (cs : list node) : option (string_class * string) :=
         match cs with
         | [] => None
         | c :: cs' =>
             match find_string p c with
             | Some r => Some r
             | None => first cs'
             end
         end) children
  end.

(** [find_all(string=True)]: every string node, of any class, in document
    order. *)
Fixpoint find_all_strings (n : node) : list (string_class * string) :=
  match n with
  | Str cls x => [(cls, x)]
  | Tag _ _ children => flat_map find_all_strings children
  end.

(** [x.extract()] for the node [x] that [find_string p] returns: the tree
    without that node, or [None] when no node is accepted. *)
Fixpoint extract (p : string_class -> string -> bool) (n : node) : option node :=
  match n with
  | Str _ _ => None
  | Tag name attrs children =>
      option_map (Tag name attrs)
        ((fix go (cs : list node) : option (list node) :=
            match cs with
            | [] => None
            | c :: cs' =>
                match c with
                | Str cls x =>
                    if p cls x then Some cs' else option_map (cons c) (go cs')
                | Tag _ _ _ =>
                    match extract p c with
                    | Some c' => Some (c' :: cs')
                    | None => option_map (cons c) (go cs')
                    end
                end
            end) children)
  end.

(** The searches over the children of a tag. *)
Definition find_children (p : string_class -> string -> bool)
  : list node -> option (string_class * string) :=
  fix first (cs : list node) : option (string_class * string) :=
    match cs with
    | [] => None
    | c :: cs' =>
        match find_string p c with
        | Some r => Some r
        | None => first cs'
        end
    end.


(** Induction on a document: a tag holds when its children do. *)
Section node_induction.
Variable P : node -> Prop.
Hypothesis P_Str : forall cls x, P (Str cls x).
Hypothesis P_Tag :
  forall name attrs children, Forall P children -> P (Tag name attrs children).

Fixpoint node_ind (n : node) : P n :=
  match n with
  | Str cls x => P_Str cls x
  | Tag name attrs children =>
      P_Tag name attrs children
        ((fix all (cs : list node) : Forall P cs :=
            match cs with
            | [] => Forall_nil_2 P
            | c :: cs' => Forall_cons_2 P c cs' (node_ind c) (all cs')
            end) children)
  end.
End node_induction.

(** The filter of [send]:
    [isinstance(x, Comment) and x.strip().casefold().startswith("subject")] *)
Definition is_subject_comment (cls : string_class) (x : string) : bool :=
  match cls with
  | Comment => startswith (casefold (strip x)) (codepoints "subject")
  | _ => false
  end.

(** Truth value of a string: false when empty. *)
Definition truthy_str (x : string) : bool :=
  match x with
  | EmptyString => false
  | String _ _ => true
  end.

(** ** Messages and the SMTP session *)

(** [email.message.EmailMessage], as the values [send] stores in it. *)
Record message : Type := Message {
  msg_From : string;
  msg_To : list cell;
  msg_Subject : string;
  msg_content : string;
  msg_alternative : string
}.

(** The session: whether it is open and what it has transmitted. *)
Record smtp : Type := Smtp {
  is_open : bool;
  outbox : list message
}.

Definition io (A : Type) : Type := smtp -> result A * smtp.

Definition io_ret {A : Type} (a : A) : io A := fun server => (Ok a, server).

Definition io_raise {A : Type} (e : exn) : io A := fun server => (Raise e, server).

Definition io_bind {A B : Type} (c : io A) (k : A -> io B) : io B :=
  fun server =>
    match c server with
    | (Ok a, server') => k a server'
    | (Raise e, server') => (Raise e, server')
    end.

Definition io_lift {A : Type} (r : result A) : io A := fun server => (r, server).

Notation "x <~ c ;; k" := (io_bind c (fun x => k))
  (at level 100, c at next level, right associativity).

(** A call that may raise and has no other effect. *)
Definition io_check (fault : option exn) : io unit :=
  match fault with
  | Some e => io_raise e
  | None => io_ret tt
  end.

(** [for x in xs: body(x)] *)
Fixpoint io_for {A : Type} (xs : list A) (body : A -> io unit) : io unit :=
  match xs with
  | [] => io_ret tt
  | x :: rest => _ <~ body x ;; io_for rest body
  end.

(** Keyword expansion of a mapping in a call: the keys must be strings. *)
Fixpoint kwargs (r : mapping) : result (list (string * list cell)) :=
  match r with
  | [] => Ok []
  | (Some k, v) :: rest => kw <- kwargs rest ;; Ok ((k, v) :: kw)
  | (None, _) :: _ => Raise (TypeError "keywords must be strings")
  end.

(** The libraries the program calls: the template engine, the Markdown
    converter, the HTML parser and the mail relay. *)
Class Libraries : Type := {
  template : Type;
  render : template -> list (string * list cell) -> result string;
  gfm_to_html : string -> string;
  (** The children of the document object that the parser builds. *)
  BeautifulSoup : string -> list node;
  (** The relay: whether opening the session, securing it and logging in
      fail, given what the session has transmitted whether the next
      message is refused, and whether leaving the session fails (QUIT
      answered with another code than 221). *)
  connect : option exn;
  starttls : option exn;
  login : string -> string -> option exn;
  send_message : list message -> message -> option exn;
  quit : list message -> option exn
}.

Section pipeline.
Context {L : Libraries}.

(** [server.send_message(msg)] *)
Definition server_send_message (msg : message) : io unit :=
  fun server =>
    match send_message (outbox server) msg with
    | Some e => (Raise e, server)
    | None => (Ok tt, Smtp (is_open server) (outbox server ++ [msg]))
    end.

(** The message [send] builds, lines 85 to 101, or the [ValueError] of a
    header that is refused: [From] at line 86, [Subject] at line 95. The
    list stored as [To] is not checked. *)
Definition compose (sender : string) (recipients : list cell) (body : string)
  : result message :=
  _ <- set_header sender ;;
  let html_body := gfm_to_html body in
  let soup := Tag "[document]" [] (BeautifulSoup html_body) in
  let subject_comment := find_string is_subject_comment soup in
  subject_soup <-
    match subject_comment with
    | Some (_, x) =>
        if truthy_str x then
          let subject := strip (last_item (split_once ":" x)) in
          _ <- set_header subject ;;
          Ok (subject, default soup (extract is_subject_comment soup))
        else Ok (EmptyString, soup)
    | None => Ok (EmptyString, soup)
    end ;;
  let text_body := join (map snd (find_all_strings (snd subject_soup))) in
  Ok (Message sender recipients (fst subject_soup) text_body html_body).

Definition send (sender : string) (recipients : list cell) (body : string)
  : io unit :=
  msg <~ io_lift (compose sender recipients body) ;;
  server_send_message msg.

(** Body of the loop of [send_batch]. *)
Definition send_row (tpl : template) (sender : string) (r : mapping) : io unit :=
  body <~ io_lift (kw <- kwargs r ;; render tpl kw) ;;
  recipients <~ io_lift (match dict_get (Some "EmailAddress") r with
                         | Some v => Ok v
                         | None => Raise (KeyError "EmailAddress")
                         end) ;;
  send sender recipients body.

(** [send_batch], lines 65 to 73. A connection that fails raises from the
    constructor and no session exists. Otherwise the [with] block is left
    through [SMTP.__exit__], whether its body raised or not: QUIT is sent,
    and an answer other than 221 raises in place of the result of the
    body. *)
Definition send_batch (data : list mapping) (tpl : template)
    (username password : string) (sender : option string)
  : result unit * smtp :=
  let sender := default username sender in
  match connect with
  | Some e => (Raise e, Smtp false [])
  | None =>
      let '(r, server) :=
        (_ <~ io_check starttls ;;
         _ <~ io_check (login username password) ;;
         io_for data (send_row tpl sender)) (Smtp true []) in
      match quit (outbox server) with
      | Some e => (Raise e, Smtp false (outbox server))
      | None => (r, Smtp false (outbox server))
      end
  end.

(** A mapping that the loop body delivers as the message [m]. *)
Definition delivered (tpl : template) (sender : string) (r : mapping) (m : message)
  : Prop :=
  exists body recipients,
    (kw <- kwargs r ;; render tpl kw) = Ok body /\
    dict_get (Some "EmailAddress") r = Some recipients /\
    compose sender recipients body = Ok m.
End pipeline.

(** ** Vocabulary of the properties *)

(** The distinct values of a sequence, in the order of their first
    occurrence. *)
Fixpoint first_seen {A : Type} `{EqDecision A} (l : list A) : list A :=
  match l with
  | [] => []
  | x :: l' => x :: filter (fun y => y <> x) (first_seen l')
  end.

(** A sequence of key and value pairs grouped by key: the keys in
    first-seen order, each with its values in their order. *)
Definition grouped {K V : Type} `{EqDecision K} (items : list (K * V))
  : list (K * list V) :=
  map (fun k => (k, map snd (filter (fun kv => fst kv = k) items)))
      (first_seen (map fst items)).

(** The grouping value of each row, and the member rows of a value. *)
Definition group_values (groupby : string) (rows : list row) : list cell :=
  omap (dict_get (Some groupby)) rows.

Definition members_of (groupby : string) (v : cell) (rows : list row) : list row :=
  filter (fun r => dict_get (Some groupby) r = Some v) rows.

(** What the second loop keeps of the keys of a group. *)
Definition kept_keys (groupby : string) (ks : list (option string))
  : list (option string) :=
  if bool_decide (casefold groupby = codepoints "group")
  then filter (fun k => k <> Some groupby) ks else ks.

(** The mapping of one group, stated over its member rows: for every kept
    key of the members, the cells the members have under that key, in member
    order. *)
Definition mapping_of (groupby : string) (members : list row) : mapping :=
  map (fun k => (k, omap (dict_get k) members))
      (kept_keys groupby (first_seen (flat_map dict_keys members))).

(** The mappings of a table, stated over its rows: one per distinct
    grouping value, in first-seen order. *)
Definition consolidated (groupby : string) (rows : list row) : list mapping :=
  map (fun v => mapping_of groupby (members_of groupby v rows))
      (first_seen (group_values groupby rows)).

(** A data record with no more fields than the header has columns. *)
Definition fits (fields record : list string) : Prop :=
  length record <= length fields.
(** A cell read from the columns of a line: a field or [None]. *)
Definition plain (c : cell) : Prop :=
  match c with
  | CRest _ => False
  | _ => True
  end.

(** A row that has the grouping column, holding a field or [None]. *)
Definition keyed (groupby : string) (r : row) : Prop :=
  exists c, dict_get (Some groupby) r = Some c /\ plain c.


(** The first string of a document that [p] accepts. *)
Fixpoint first_accepted (p : string_class -> string -> bool)
    (l : list (string_class * string)) : option (string_class * string) :=
  match l with
  | [] => None
  | kx :: l' => if p (fst kx) (snd kx) then Some kx else first_accepted p l'
  end.


(** A small Latin letter, and a word made of such letters. *)
Definition small_letter (l : ascii) : Prop := 97 <= nat_of_ascii l <= 122.

Fixpoint small_word (word : string) : Prop :=
  match word with
  | EmptyString => True
  | String l word' => small_letter l /\ small_word word'
  end.

(** The character [c] is the small letter [l] or its capital. *)
Definition same_letter (c l : ascii) : Prop :=
  c = l \/ nat_of_ascii c + 32 = nat_of_ascii l.

(** [w] is the word [word], given in small letters, in some casing. *)
Fixpoint spells (word w : string) : Prop :=
  match word, w with
  | EmptyString, EmptyString => True
  | String l word', String c w' => same_letter c l /\ spells word' w'
  | _, _ => False
  end.

(** A text of whitespace only. *)
Fixpoint blank_text (s : string) : Prop :=
  match s with
  | EmptyString => True
  | String c s' => isspace c = true /\ blank_text s'
  end.

(** A subject directive, in the words of the specification: a text that,
    after leading whitespace, begins with the word [subject] in any
    casing. *)
Definition subject_directive (x : string) : Prop :=
  exists pad w rest,
    x = (pad ++ w ++ rest)%string /\ blank_text pad /\ spells "subject" w.



Fixpoint contains_char (c : ascii) (s : string) : bool :=
  match s with
  | EmptyString => false
  | String c' s' => Ascii.eqb c' c || contains_char c s'
  end.

(** [y] occurs in [s]. *)
Definition occurs_in (y s : string) : Prop := exists u v, s = (u ++ y ++ v)%string.


(** ** Collaborators used in examples *)

Definition newline : string := String (ascii_of_nat 10) EmptyString.

(** A body that is one raw HTML block, which the converter (unsafe option)
    copies to its output. *)
Definition body_one_subject : string :=
  ("<p>Hi</p><!-- Subject: Hello -->" ++ newline)%string.

Definition body_two_subjects : string :=
  ("<p>Hi</p><!-- subject: One --><!-- subject: Two -->" ++ newline)%string.

(** A subject comment written on two lines. *)
Definition two_line_subject : string :=
  (" Subject: Hello" ++ newline ++ "world ")%string.

Definition body_two_line_subject : string :=
  ("<p>Hi</p><!--" ++ two_line_subject ++ "-->" ++ newline)%string.

Definition demo_gfm_to_html (body : string) : string := body.

(** The documents of the bodies above as the parser builds them. *)
Definition demo_BeautifulSoup (html : string) : list node :=
  if String.eqb html body_one_subject then
    [Tag "html" []
       [Tag "body" []
          [Tag "p" [] [Str NavigableString "Hi"];
           Str Comment " Subject: Hello ";
           Str NavigableString newline]]]
  else if String.eqb html body_two_subjects then
    [Tag "html" []
       [Tag "body" []
          [Tag "p" [] [Str NavigableString "Hi"];
           Str Comment " subject: One ";
           Str Comment " subject: Two ";
           Str NavigableString newline]]]
  else if String.eqb html body_two_line_subject then
    [Tag "html" []
       [Tag "body" []
          [Tag "p" [] [Str NavigableString "Hi"];
           Str Comment two_line_subject;
           Str NavigableString newline]]]
  else [].

(** A template as the variables it needs and the body it renders to. *)
Definition demo_template : Type := (list string * string)%type.

Definition demo_render (tpl : demo_template) (kw : list (string * list cell))
  : result string :=
  if forallb (fun x => bool_decide (x ∈ map fst kw)) (fst tpl)
  then Ok (snd tpl) else Raise (TemplateError "undefined variable").

(** A relay that refuses a message without recipients. *)
Definition demo_send_message (sent : list message) (msg : message) : option exn :=
  match msg_To msg with
  | [] => Some (SMTPException "no recipients")
  | _ :: _ => None
  end.

Definition demo_libraries : Libraries := {|
  template := demo_template;
  render := demo_render;
  gfm_to_html := demo_gfm_to_html;
  BeautifulSoup := demo_BeautifulSoup;
  connect := None;
  starttls := None;
  login := fun _ _ => None;
  send_message := demo_send_message;
  quit := fun _ => None
|}.

(** The same libraries with a relay that answers QUIT with another code
    than 221. *)
Definition hangup_libraries : Libraries := {|
  template := demo_template;
  render := demo_render;
  gfm_to_html := demo_gfm_to_html;
  BeautifulSoup := demo_BeautifulSoup;
  connect := None;
  starttls := None;
  login := fun _ _ => None;
  send_message := demo_send_message;
  quit := fun _ => Some (SMTPException "QUIT refused")
|}.

Definition demo_tpl : demo_template := (["Name"], body_one_subject).

Definition mapping_al : mapping :=
  [ (Some "EmailAddress", [CStr "a@x"]); (Some "Name", [CStr "Al"]) ].

(** A mapping without the variable the template needs. *)
Definition mapping_nameless : mapping := [ (Some "EmailAddress", [CStr "b@x"]) ].

Definition message_al : message :=
  Message "me@x" [CStr "a@x"] "Hello" ("Hi" ++ newline)%string body_one_subject.

(** ** Tables used as examples *)

Definition table_groups : list (list string) :=
  [ ["Group"; "EmailAddress"; "Name"];
    ["A"; "a1@x"; "Al"]; ["A"; "a2@x"; "Ann"]; ["B"; "b1@x"; "Bob"] ].

Definition table_repeated_address : list (list string) :=
  [ ["EmailAddress"; "Name"]; ["a@x"; "Al"]; ["a@x"; "Ann"] ].

Definition table_lowercase_group : list (list string) :=
  [ ["group"; "EmailAddress"]; ["A"; "a1@x"]; ["A"; "a2@x"] ].

Definition table_surplus_field : list (list string) :=
  [ ["EmailAddress"; "Name"]; ["a@x"; "Al"; "extra"]; ["a@x"; "Ann"] ].

Definition table_no_required_column : list (list string) :=
  [ ["Name"]; ["Al"] ].

(** ** run *)

(** The parsed command line. *)
Record arguments : Type := Args {
  msgfile : string;
  csvfile : string;
  arg_sender : option string
}.

(** [os.getenv(key, default)], the environment being a dictionary. *)
Definition getenv (environ : list (string * string)) (key fallback : string) : string :=
  default fallback (dict_get key environ).

Section command.
Context {L : Libraries}.

(** [get_template]: the template that the engine loads from a path, or the
    error it raises. *)
Variable get_template : string -> result template.

(** The records that [csv.reader] yields from the file at a path, the file
    being one that opens. *)
Variable read_csv : string -> list (list string).

(** [run], after the command line is parsed. The second component is the
    session, when one was created. *)
Definition run (args : arguments) (environ : list (string * string))
  : result unit * option smtp :=
  let password := getenv environ "SMTPPASSWD" "" in
  let username := getenv environ "SMTPUSER" "" in
  match get_template (msgfile args) with
  | Raise e => (Raise e, None)
  | Ok tpl =>
      match get_data (read_csv (csvfile args)) with
      | Raise e => (Raise e, None)
      | Ok data =>
          let '(r, server) :=
            send_batch data tpl username password (arg_sender args) in
          (r, Some server)
      end
  end.
End command.

(** Libraries that never fail, with the document of a paragraph followed by
    a comment that is no subject directive. *)
Definition plain_libraries : Libraries := {|
  template := string;
  render := fun tpl _ => Ok tpl;
  gfm_to_html := fun body => body;
  BeautifulSoup := fun _ =>
    [Tag "html" []
       [Tag "body" []
          [Tag "p" [] [Str NavigableString "Hi"]; Str Comment " note "]]];
  connect := None;
  starttls := None;
  login := fun _ _ => None;
  send_message := fun _ _ => None;
  quit := fun _ => None
|}.

Definition table_no_address : list (list string) :=
  [ ["Group"; "Name"]; ["A"; "Al"]; ["B"; "Bob"] ].

Definition table_duplicate_column : list (list string) :=
  [ ["EmailAddress"; "Name"; "Name"]; ["a@x"; "Al"; "Alan"] ].

(** Libraries whose relay refuses the login. *)
Definition locked_libraries : Libraries := {|
  template := string;
  render := fun tpl _ => Ok tpl;
  gfm_to_html := fun body => body;
  BeautifulSoup := fun _ => [];
  connect := None;
  starttls := None;
  login := fun _ _ => Some (SMTPException "authentication failed");
  send_message := fun _ _ => None;
  quit := fun _ => None
|}.

(** Libraries whose relay refuses the login and then QUIT. *)
Definition lost_libraries : Libraries := {|
  template := string;
  render := fun tpl _ => Ok tpl;
  gfm_to_html := fun body => body;
  BeautifulSoup := fun _ => [];
  connect := None;
  starttls := None;
  login := fun _ _ => Some (SMTPException "authentication failed");
  send_message := fun _ _ => None;
  quit := fun _ => Some (SMTPException "QUIT refused")
|}.

(** * Properties *)

(** ** Lists and dictionaries *)

Lemma filter_none {A : Type} (P : A -> Prop) `{forall x, Decision (P x)} (l : list A) :
  (forall x, x ∈ l -> ~ P x) -> filter P l = [].
Proof.
  induction l as [|a l IH]; intros Hl; [done|].
  rewrite filter_cons_False by (apply Hl; by left).
  apply IH. intros x Hx. apply Hl. by right.
Qed.

Section first_seen_facts.
Context {A : Type} `{EqDecision A}.

Lemma elem_of_first_seen (l : list A) (x : A) : x ∈ first_seen l <-> x ∈ l.
Proof.
  induction l as [|a l IH]; simpl; [done|].
  rewrite !elem_of_cons, list_elem_of_filter, IH.
  destruct (decide (x = a)); naive_solver.
Qed.

Lemma NoDup_first_seen (l : list A) : NoDup (first_seen l).
Proof.
  induction l as [|a l IH]; simpl; [constructor|].
  constructor.
  - rewrite list_elem_of_filter. naive_solver.
  - by apply NoDup_filter.
Qed.

Lemma first_seen_snoc (l : list A) (x : A) :
  first_seen (l ++ [x]) = if decide (x ∈ l) then first_seen l else first_seen l ++ [x].
Proof.
  induction l as [|a l IH]; simpl; [done|].
  rewrite IH. destruct (decide (x ∈ l)) as [Hin|Hin].
  - rewrite decide_True by (by right). done.
  - rewrite filter_app. destruct (decide (x = a)) as [->|Hne].
    + rewrite decide_True by (by left).
      rewrite filter_cons_False by naive_solver. simpl. by rewrite app_nil_r.
    + rewrite decide_False by (rewrite elem_of_cons; naive_solver).
      rewrite filter_cons_True by done. done.
Qed.

Lemma filter_ne_id (l : list A) (a : A) :
  a ∉ l -> filter (fun y => y <> a) l = l.
Proof.
  induction l as [|b l IH]; intros Hin; [done|].
  rewrite not_elem_of_cons in Hin. destruct Hin as [Hne Hin].
  rewrite filter_cons_True by done. by rewrite IH.
Qed.

Lemma first_seen_NoDup (l : list A) : NoDup l -> first_seen l = l.
Proof.
  induction 1 as [|a l Hin _ IH]; simpl; [done|].
  rewrite IH. by rewrite filter_ne_id.
Qed.

Lemma first_seen_app_seen (l k : list A) :
  (forall x, x ∈ k -> x ∈ l) -> first_seen (l ++ k) = first_seen l.
Proof.
  induction k as [|x k IH] using rev_ind; intros Hsub.
  - by rewrite app_nil_r.
  - rewrite app_assoc, first_seen_snoc.
    rewrite decide_True.
    + apply IH. intros y Hy. apply Hsub. rewrite elem_of_app. by left.
    + rewrite elem_of_app. left. apply Hsub. rewrite elem_of_app, list_elem_of_singleton.
      by right.
Qed.
End first_seen_facts.

Section dict_facts.
Context {K V : Type} `{EqDecision K}.
Implicit Types (d : list (K * V)) (k : K) (v : V).

Lemma dict_get_keyed (f : K -> V) (ks : list K) k :
  dict_get k (map (fun k' => (k', f k')) ks)
  = if decide (k ∈ ks) then Some (f k) else None.
Proof.
  induction ks as [|a ks IH]; simpl; [done|].
  destruct (decide (k = a)) as [->|Hne].
  - by rewrite decide_True by (by left).
  - rewrite IH. destruct (decide (k ∈ ks)).
    + by rewrite decide_True by (by right).
    + by rewrite decide_False by (rewrite elem_of_cons; naive_solver).
Qed.

Lemma dict_set_keyed_in (f : K -> V) (ks : list K) k v :
  NoDup ks -> k ∈ ks ->
  dict_set k v (map (fun k' => (k', f k')) ks)
  = map (fun k' => (k', if decide (k' = k) then v else f k')) ks.
Proof.
  induction 1 as [|a ks Hin Hnd IH]; intros Hk; [by apply elem_of_nil in Hk|].
  simpl. destruct (decide (k = a)) as [->|Hne].
  - rewrite decide_True by done. f_equal.
    apply map_ext_in. intros b Hb. apply list_elem_of_In in Hb.
    rewrite decide_False; [done|]. intros ->. done.
  - rewrite decide_False by done. f_equal.
    apply IH. rewrite elem_of_cons in Hk. naive_solver.
Qed.

Lemma dict_set_keyed_notin (f : K -> V) (ks : list K) k v :
  k ∉ ks ->
  dict_set k v (map (fun k' => (k', f k')) ks)
  = map (fun k' => (k', f k')) ks ++ [(k, v)].
Proof.
  induction ks as [|a ks IH]; intros Hk; simpl; [done|].
  rewrite not_elem_of_cons in Hk. destruct Hk as [Hne Hk].
  rewrite decide_False by done. by rewrite IH.
Qed.

Lemma dict_del_keyed (f : K -> V) (ks : list K) k :
  NoDup ks -> k ∈ ks ->
  dict_del k (map (fun k' => (k', f k')) ks)
  = Some (map (fun k' => (k', f k')) (filter (fun k' => k' <> k) ks)).
Proof.
  induction 1 as [|a ks Hin Hnd IH]; intros Hk; [by apply elem_of_nil in Hk|].
  simpl. destruct (decide (k = a)) as [->|Hne].
  - rewrite filter_cons_False by naive_solver. by rewrite filter_ne_id.
  - rewrite IH by (rewrite elem_of_cons in Hk; naive_solver).
    simpl. rewrite filter_cons_True by naive_solver. done.
Qed.

Lemma dict_keys_set d k v :
  dict_keys (dict_set k v d)
  = if decide (k ∈ dict_keys d) then dict_keys d else dict_keys d ++ [k].
Proof.
  unfold dict_keys. induction d as [|[a w] d IH]; simpl; [done|].
  destruct (decide (k = a)) as [->|Hne]; simpl.
  - by rewrite decide_True by (by left).
  - rewrite IH. destruct (decide (k ∈ map fst d)).
    + by rewrite decide_True by (by right).
    + by rewrite decide_False by (rewrite elem_of_cons; naive_solver).
Qed.

Lemma dict_get_set d k k' v :
  dict_get k' (dict_set k v d) = if decide (k' = k) then Some v else dict_get k' d.
Proof.
  induction d as [|[a w] d IH]; simpl.
  - destruct (decide (k' = k)); done.
  - destruct (decide (k = a)) as [->|Hne]; simpl.
    + destruct (decide (k' = a)); done.
    + rewrite IH. destruct (decide (k' = a)) as [->|]; [|done].
      by rewrite decide_False by done.
Qed.

Lemma dict_get_is_Some d k : is_Some (dict_get k d) <-> k ∈ dict_keys d.
Proof.
  unfold dict_keys. induction d as [|[a w] d IH]; simpl.
  - rewrite elem_of_nil. split; [intros [? ?]; done|done].
  - rewrite elem_of_cons. destruct (decide (k = a)) as [->|Hne].
    + split; [by left|by eexists].
    + rewrite IH. naive_solver.
Qed.

Lemma dict_get_None d k : dict_get k d = None <-> k ∉ dict_keys d.
Proof. rewrite <- dict_get_is_Some, eq_None_not_Some. done. Qed.

(** The items of a key in a dictionary whose keys are distinct. *)
Lemma dict_items_of_key d k :
  NoDup (dict_keys d) ->
  map snd (filter (fun kv => fst kv = k) d) = option_list (dict_get k d).
Proof.
  unfold dict_keys. induction d as [|[a w] d IH]; simpl; intros Hnd; [done|].
  apply NoDup_cons in Hnd as [Hin Hnd].
  destruct (decide (k = a)) as [->|Hne].
  - rewrite filter_cons_True by done. simpl. f_equal.
    rewrite (proj2 (dict_get_None d a)) in IH by done.
    by apply IH.
  - rewrite filter_cons_False by (simpl; naive_solver). by apply IH.
Qed.
End dict_facts.

Lemma foldl_setdefault_append {K V : Type} `{EqDecision K} (items : list (K * V)) :
  foldl (fun m kv => setdefault_append (fst kv) (snd kv) m) [] items = grouped items.
Proof.
  induction items as [|[k v] items IH] using rev_ind; [done|].
  rewrite foldl_snoc, IH. unfold grouped, setdefault_append. simpl.
  rewrite map_app. simpl. rewrite first_seen_snoc.
  rewrite (dict_get_keyed (fun k => map snd (filter (fun kv => fst kv = k) items))).
  destruct (decide (k ∈ map fst items)) as [Hin|Hin].
  - rewrite decide_True by (by apply elem_of_first_seen).
    rewrite (dict_set_keyed_in (fun k => map snd (filter (fun kv => fst kv = k) items)))
      by (try apply NoDup_first_seen; by apply elem_of_first_seen).
    apply map_ext. intros k'. f_equal.
    rewrite filter_app, map_app. destruct (decide (k' = k)) as [->|Hne].
    + by rewrite filter_cons_True by done.
    + rewrite filter_cons_False by (simpl; naive_solver). simpl. by rewrite app_nil_r.
  - rewrite decide_False by (by rewrite elem_of_first_seen).
    rewrite (dict_set_keyed_notin (fun k => map snd (filter (fun kv => fst kv = k) items)))
      by (by rewrite elem_of_first_seen).
    rewrite map_app. simpl. f_equal.
    + apply map_ext_in. intros k' Hk'. apply list_elem_of_In in Hk'.
      rewrite elem_of_first_seen in Hk'.
      f_equal. rewrite filter_app, filter_cons_False; [by rewrite app_nil_r|].
      simpl. intros ->. done.
    + f_equal. f_equal. rewrite filter_app, map_app, filter_cons_True by done.
      simpl. replace (filter (fun kv => fst kv = k) items) with (@nil (K * V)); [done|].
      symmetry. apply filter_none. intros [k' v'] Hkv Heq. simpl in Heq. subst k'.
      apply Hin. apply list_elem_of_fmap. by exists (k, v').
Qed.

Section dict_fold_facts.
Context {K V : Type} `{EqDecision K}.

Lemma first_seen_app_idemp (a b : list K) :
  first_seen (first_seen a ++ b) = first_seen (a ++ b).
Proof.
  induction b as [|x b IH] using rev_ind.
  - rewrite !app_nil_r. apply first_seen_NoDup, NoDup_first_seen.
  - rewrite !app_assoc, !first_seen_snoc, IH.
    destruct (decide (x ∈ a ++ b)) as [Hin|Hin].
    + rewrite decide_True; [done|].
      rewrite elem_of_app in *. rewrite elem_of_first_seen. done.
    + rewrite decide_False; [done|].
      rewrite elem_of_app in *. rewrite elem_of_first_seen. done.
Qed.

Lemma dict_keys_foldl_set {A : Type} (g : A -> K) (h : A -> V)
    (d : list (K * V)) (l : list A) :
  NoDup (dict_keys d) ->
  dict_keys (foldl (fun d x => dict_set (g x) (h x) d) d l)
  = first_seen (dict_keys d ++ map g l).
Proof.
  intros Hnd. induction l as [|x l IH] using rev_ind.
  - simpl. rewrite app_nil_r. symmetry. by apply first_seen_NoDup.
  - rewrite foldl_snoc, dict_keys_set, IH, map_app. simpl.
    rewrite app_assoc, first_seen_snoc. destruct (decide (g x ∈ dict_keys d ++ map g l)) as [Hin|Hin].
    + by rewrite decide_True by (by apply elem_of_first_seen).
    + by rewrite decide_False by (by rewrite elem_of_first_seen).
Qed.

Lemma dict_set_Forall (P : K * V -> Prop) (d : list (K * V)) (k : K) (v : V) :
  Forall P d -> P (k, v) -> Forall P (dict_set k v d).
Proof.
  induction 1 as [|[a w] d Ha Hd IH]; intros Hkv; simpl.
  - by constructor.
  - destruct (decide (k = a)) as [->|Hne]; constructor; auto.
Qed.

Lemma foldl_dict_set_Forall {A : Type} (P : K * V -> Prop) (g : A -> K) (h : A -> V)
    (d : list (K * V)) (l : list A) :
  Forall P d -> (forall x, P (g x, h x)) ->
  Forall P (foldl (fun d x => dict_set (g x) (h x) d) d l).
Proof.
  intros Hd HP. revert d Hd. induction l as [|x l IH]; intros d Hd; simpl; [done|].
  apply IH. by apply dict_set_Forall.
Qed.

Lemma dict_get_elem_of (d : list (K * V)) (k : K) (v : V) :
  dict_get k d = Some v -> (k, v) ∈ d.
Proof.
  induction d as [|[a w] d IH]; simpl; [done|].
  destruct (decide (k = a)) as [->|Hne].
  - intros [= ->]. by left.
  - intros Hget. right. by apply IH.
Qed.
End dict_fold_facts.

(** ** Rows of the reader *)

Lemma fst_zip_take {A B : Type} (l : list A) (k : list B) :
  map fst (zip l k) = take (length k) l.
Proof.
  revert k. induction l as [|a l IH]; intros [|b k]; simpl; try done.
  by rewrite IH.
Qed.

Lemma next_row_keys (fields record : list string) :
  dict_keys (next_row fields record)
  = first_seen (map Some fields)
    ++ (if (length fields <? length record)%nat then [None] else []).
Proof.
  unfold next_row.
  assert (Hz : dict_keys
             (foldl (fun d kv => dict_set (Some (fst kv)) (CStr (snd kv)) d)
                    [] (zip fields record))
           = first_seen (map Some (take (length record) fields))).
  { rewrite (dict_keys_foldl_set (fun kv => Some (fst kv)) (fun kv => CStr (snd kv)))
      by constructor.
    simpl. by rewrite <- fst_zip_take, map_map. }
  destruct (length fields <? length record)%nat eqn:Hlong.
  - apply Nat.ltb_lt in Hlong.
    rewrite dict_keys_set, Hz, take_ge by lia.
    rewrite decide_False; [done|].
    rewrite elem_of_first_seen, list_elem_of_fmap. naive_solver.
  - rewrite app_nil_r. apply Nat.ltb_ge in Hlong.
    destruct (length record <? length fields)%nat eqn:Hshort.
    + rewrite (dict_keys_foldl_set Some (fun _ => CNone)).
      * rewrite Hz, first_seen_app_idemp, <- map_app, take_drop. done.
      * rewrite Hz. apply NoDup_first_seen.
    + apply Nat.ltb_ge in Hshort. rewrite Hz, take_ge by lia. done.
Qed.

Lemma next_row_NoDup (fields record : list string) :
  NoDup (dict_keys (next_row fields record)).
Proof.
  rewrite next_row_keys. apply NoDup_app. split; [apply NoDup_first_seen|].
  split.
  - intros k Hk. destruct (length fields <? length record)%nat; [|apply not_elem_of_nil].
    rewrite list_elem_of_singleton. intros ->.
    rewrite elem_of_first_seen, list_elem_of_fmap in Hk. naive_solver.
  - destruct (length fields <? length record)%nat; [|constructor].
    apply NoDup_singleton.
Qed.

Lemma next_row_plain (fields record : list string) (k : string) (c : cell) :
  dict_get (Some k) (next_row fields record) = Some c -> plain c.
Proof.
  intros Hget. apply dict_get_elem_of in Hget.
  assert (HF : Forall (fun kv : option string * cell => fst kv <> None -> plain (snd kv))
                 (next_row fields record)).
  { unfold next_row.
    assert (H0 : Forall (fun kv : option string * cell => fst kv <> None -> plain (snd kv))
               (foldl (fun d kv => dict_set (Some (fst kv)) (CStr (snd kv)) d)
                      [] (zip fields record))).
    { apply (foldl_dict_set_Forall _ (fun kv => Some (fst kv)) (fun kv => CStr (snd kv)));
        [constructor|done]. }
    destruct (length fields <? length record)%nat.
    - apply dict_set_Forall; [done|]. simpl. done.
    - destruct (length record <? length fields)%nat; [|done].
      apply (foldl_dict_set_Forall _ Some (fun _ => CNone)); done. }
  rewrite Forall_forall in HF. by apply (HF _ Hget).
Qed.

Lemma next_row_has_column (fields record : list string) (k : string) :
  k ∈ fields <-> Some k ∈ dict_keys (next_row fields record).
Proof.
  rewrite next_row_keys, elem_of_app, elem_of_first_seen, list_elem_of_fmap.
  split.
  - intros Hk. left. by exists k.
  - intros [(k' & [= ->] & Hk)|Hk]; [done|].
    destruct (length fields <? length record)%nat.
    + by apply list_elem_of_singleton in Hk.
    + by apply elem_of_nil in Hk.
Qed.

(** ** Loops *)

Lemma for_each_ok {A S : Type} (body : S -> A -> result S) (f : S -> A -> S)
    (xs : list A) (acc : S) :
  (forall acc x, x ∈ xs -> body acc x = Ok (f acc x)) ->
  for_each body xs acc = Ok (foldl f acc xs).
Proof.
  revert acc. induction xs as [|x xs IH]; intros acc Hbody; simpl; [done|].
  rewrite Hbody by (by left). simpl. apply IH.
  intros acc' y Hy. apply Hbody. by right.
Qed.

Lemma for_each_collect {A B : Type} (f : A -> result B) (xs : list A) (ys acc : list B) :
  Forall2 (fun x y => f x = Ok y) xs ys ->
  for_each (fun acc x => y <- f x ;; Ok (acc ++ [y])) xs acc = Ok (acc ++ ys).
Proof.
  intros HF. revert acc. induction HF as [|x y xs ys Hxy _ IH]; intros acc; simpl.
  - by rewrite app_nil_r.
  - rewrite Hxy. simpl. rewrite IH, <- app_assoc. done.
Qed.

Lemma foldl_concat {A S : Type} (f : S -> A -> S) (ls : list (list A)) (acc : S) :
  foldl (fun m l => foldl f m l) acc ls = foldl f acc (concat ls).
Proof.
  revert acc. induction ls as [|l ls IH]; intros acc; simpl; [done|].
  by rewrite IH, foldl_app.
Qed.

(** ** The two loops of get_data *)

Lemma group_values_keyed (groupby : string) (rows : list row) :
  Forall (keyed groupby) rows ->
  group_values groupby rows
  = map (fun r => default CNone (dict_get (Some groupby) r)) rows.
Proof.
  induction 1 as [|r rows (c & Hc & _) _ IH]; [done|].
  unfold group_values. simpl. rewrite Hc. simpl. f_equal. exact IH.
Qed.

Lemma members_of_keyed (groupby : string) (v : cell) (rows : list row) :
  Forall (keyed groupby) rows ->
  map snd (filter (fun kv : cell * row => fst kv = v)
             (map (fun r => (default CNone (dict_get (Some groupby) r), r)) rows))
  = members_of groupby v rows.
Proof.
  unfold members_of.
  induction 1 as [|r rows (c & Hc & _) _ IH]; [done|].
  cbn [map]. rewrite Hc. cbn [default from_option].
  destruct (decide (c = v)) as [->|Hne].
  - rewrite !filter_cons_True by done. cbn [map snd]. f_equal. exact IH.
  - rewrite !filter_cons_False; [exact IH| |]; [rewrite Hc|simpl]; congruence.
Qed.

Lemma group_rows_ok (groupby : string) (rows : list row) :
  Forall (keyed groupby) rows ->
  for_each (add_member groupby) rows []
  = Ok (map (fun v => (v, members_of groupby v rows))
            (first_seen (group_values groupby rows))).
Proof.
  intros Hk.
  rewrite (for_each_ok _
             (fun acc r => setdefault_append
                             (default CNone (dict_get (Some groupby) r)) r acc)).
  - f_equal.
    transitivity (grouped (map (fun r => (default CNone (dict_get (Some groupby) r), r))
                               rows)).
    { rewrite <- foldl_setdefault_append, foldl_fmap. done. }
    unfold grouped.
    rewrite map_map. simpl. rewrite <- group_values_keyed by done.
    apply map_ext. intros v. f_equal. by apply members_of_keyed.
  - intros acc r Hr. rewrite Forall_forall in Hk.
    destruct (Hk r Hr) as (c & Hc & Hp). unfold add_member. rewrite Hc. simpl.
    by destruct c.
Qed.

Lemma group_rows_missing (groupby : string) (r : row) (rows : list row) :
  dict_get (Some groupby) r = None ->
  for_each (add_member groupby) (r :: rows) [] = Raise (KeyError groupby).
Proof. intros Hr. simpl. unfold add_member. by rewrite Hr. Qed.

Lemma items_of_key_concat (k : option string) (group : list row) :
  Forall (fun r => NoDup (dict_keys r)) group ->
  map snd (filter (fun kv : option string * cell => fst kv = k) (concat group))
  = omap (dict_get k) group.
Proof.
  induction 1 as [|r group Hr _ IH]; [done|].
  simpl. rewrite filter_app, map_app, IH, dict_items_of_key by done.
  by destruct (dict_get k r).
Qed.

Lemma consolidate_spec (groupby : string) (group : list row) :
  Forall (fun r => NoDup (dict_keys r)) group ->
  Forall (keyed groupby) group ->
  group <> [] ->
  consolidate groupby group = Ok (mapping_of groupby group).
Proof.
  intros Hnd Hk Hne. unfold consolidate, merge_member, mapping_of, kept_keys.
  rewrite (foldl_concat
             (fun m (kv : option string * cell) => setdefault_append (fst kv) (snd kv) m)).
  rewrite foldl_setdefault_append. unfold grouped.
  assert (Hkeys : map fst (concat group) = flat_map dict_keys group).
  { clear. induction group as [|r group IH]; [done|].
    simpl. by rewrite map_app, IH. }
  rewrite Hkeys.
  assert (Hvals : map (fun k => (k, map snd (filter (fun kv : option string * cell => fst kv = k)
                                              (concat group))))
                    (first_seen (flat_map dict_keys group))
                  = map (fun k => (k, omap (dict_get k) group))
                      (first_seen (flat_map dict_keys group))).
  { apply map_ext. intros k. f_equal. by apply items_of_key_concat. }
  rewrite Hvals.
  destruct (bool_decide (casefold groupby = codepoints "group")); [|done].
  rewrite (dict_del_keyed (fun k => omap (dict_get k) group)); [done| |].
  - apply NoDup_first_seen.
  - apply elem_of_first_seen. destruct group as [|r group]; [done|].
    simpl. rewrite elem_of_app. left.
    apply Forall_cons in Hk as [(c & Hc & _) _].
    apply dict_get_is_Some. by exists c.
Qed.

(** ** get_data on a table with its grouping column *)

Lemma rows_NoDup (records : list (list string)) :
  Forall (fun r => NoDup (dict_keys r)) (DictReader records).
Proof.
  destruct records as [|fields rest]; [constructor|].
  simpl. apply Forall_forall. intros r Hr.
  apply list_elem_of_fmap in Hr as (record & -> & _). apply next_row_NoDup.
Qed.

Lemma rows_keyed (fields : list string) (rest : list (list string)) (g : string) :
  g ∈ fields -> Forall (keyed g) (DictReader (fields :: rest)).
Proof.
  intros Hg. simpl. apply Forall_forall. intros r Hr.
  apply list_elem_of_fmap in Hr as (record & -> & _).
  destruct (proj2 (dict_get_is_Some (next_row fields record) (Some g))) as [c Hc].
  { by apply next_row_has_column. }
  exists c. split; [done|]. by apply (next_row_plain fields record g).
Qed.

Lemma rows_not_keyed (fields : list string) (rest : list (list string)) (g : string) :
  g ∉ fields ->
  Forall (fun r => dict_get (Some g) r = None) (DictReader (fields :: rest)).
Proof.
  intros Hg. simpl. apply Forall_forall. intros r Hr.
  apply list_elem_of_fmap in Hr as (record & -> & _).
  apply dict_get_None. by rewrite <- next_row_has_column.
Qed.

Lemma elem_of_group_values (g : string) (rows : list row) (v : cell) :
  v ∈ group_values g rows <-> exists r, r ∈ rows /\ dict_get (Some g) r = Some v.
Proof. unfold group_values. rewrite list_elem_of_omap. done. Qed.

Lemma elem_of_members_of (g : string) (v : cell) (rows : list row) (r : row) :
  r ∈ members_of g v rows <-> r ∈ rows /\ dict_get (Some g) r = Some v.
Proof. unfold members_of. rewrite list_elem_of_filter. tauto. Qed.

Lemma members_of_nonempty (g : string) (v : cell) (rows : list row) :
  v ∈ group_values g rows -> members_of g v rows <> [].
Proof.
  intros (r & Hr & Hv)%elem_of_group_values Hnil.
  assert (Hin : r ∈ members_of g v rows) by (by apply elem_of_members_of).
  rewrite Hnil in Hin. by apply elem_of_nil in Hin.
Qed.

Lemma members_of_length (g : string) (v : cell) (rows : list row) :
  v ∈ group_values g rows -> (1 <= length (members_of g v rows))%nat.
Proof.
  intros Hne%members_of_nonempty.
  destruct (members_of g v rows); [done|simpl; lia].
Qed.

Lemma members_of_Forall (P : row -> Prop) (g : string) (v : cell) (rows : list row) :
  Forall P rows -> Forall P (members_of g v rows).
Proof.
  rewrite !Forall_forall. intros HP r Hr. apply HP.
  by apply elem_of_members_of in Hr as [Hr _].
Qed.

Lemma Forall2_map_both {A B C : Type} (P : B -> C -> Prop) (f : A -> B) (g : A -> C)
    (l : list A) :
  (forall x, x ∈ l -> P (f x) (g x)) -> Forall2 P (map f l) (map g l).
Proof.
  induction l as [|x l IH]; intros HP; simpl; constructor.
  - apply HP. by left.
  - apply IH. intros y Hy. apply HP. by right.
Qed.

Lemma get_data_consolidated (fields : list string) (rest : list (list string)) :
  select_groupby (Some fields) ∈ fields ->
  get_data (fields :: rest)
  = Ok (consolidated (select_groupby (Some fields)) (DictReader (fields :: rest))).
Proof.
  intros Hg. unfold get_data.
  change (fieldnames (fields :: rest)) with (Some fields).
  set (g := select_groupby (Some fields)) in *.
  set (rows := DictReader (fields :: rest)).
  assert (Hk : Forall (keyed g) rows) by (by apply rows_keyed).
  assert (Hnd : Forall (fun r => NoDup (dict_keys r)) rows) by apply rows_NoDup.
  rewrite group_rows_ok by done. cbn [bind].
  unfold dict_values. rewrite map_map. cbn [snd].
  rewrite (for_each_collect (consolidate g) _ (consolidated g rows)); [done|].
  unfold consolidated. apply Forall2_map_both. intros v Hv.
  rewrite elem_of_first_seen in Hv.
  apply consolidate_spec.
  - by apply members_of_Forall.
  - by apply members_of_Forall.
  - by apply members_of_nonempty.
Qed.

Lemma get_data_missing_column (fields : list string) (rest : list (list string)) :
  select_groupby (Some fields) ∉ fields ->
  DictReader (fields :: rest) <> [] ->
  get_data (fields :: rest) = Raise (KeyError (select_groupby (Some fields))).
Proof.
  intros Hg Hrows. unfold get_data.
  change (fieldnames (fields :: rest)) with (Some fields).
  pose proof (rows_not_keyed fields rest _ Hg) as Hnk.
  destruct (DictReader (fields :: rest)) as [|r rows]; [done|].
  apply Forall_cons in Hnk as [Hr _].
  by rewrite group_rows_missing.
Qed.

Lemma select_groupby_Group (fields : list string) :
  "Group" ∈ fields -> select_groupby (Some fields) = "Group".
Proof.
  intros HG. unfold select_groupby. simpl.
  rewrite bool_decide_eq_true_2 by done. simpl. by rewrite andb_false_r.
Qed.

Lemma select_groupby_EmailAddress (fields : list string) :
  "Group" ∉ fields -> fields <> [] -> select_groupby (Some fields) = "EmailAddress".
Proof.
  intros HG Hne. unfold select_groupby. simpl.
  rewrite bool_decide_eq_false_2 by done. by destruct fields.
Qed.

Lemma consolidated_length (g : string) (rows : list row) :
  length (consolidated g rows) = length (first_seen (group_values g rows)).
Proof. unfold consolidated. by rewrite length_map. Qed.

Lemma consolidated_Forall2 (g : string) (rows : list row) (P : cell -> mapping -> Prop) :
  (forall v, v ∈ group_values g rows -> P v (mapping_of g (members_of g v rows))) ->
  Forall2 P (first_seen (group_values g rows)) (consolidated g rows).
Proof.
  intros HP. unfold consolidated.
  rewrite <- (map_id (first_seen (group_values g rows))) at 1.
  apply Forall2_map_both. intros v Hv. rewrite elem_of_first_seen in Hv. by apply HP.
Qed.

Lemma mapping_of_keys (g : string) (members : list row) :
  dict_keys (mapping_of g members)
  = kept_keys g (first_seen (flat_map dict_keys members)).
Proof. unfold mapping_of, dict_keys. rewrite map_map. simpl. apply map_id. Qed.

Lemma mapping_of_get (g : string) (members : list row) (k : option string) :
  k ∈ dict_keys (mapping_of g members) ->
  dict_get k (mapping_of g members) = Some (omap (dict_get k) members).
Proof.
  rewrite mapping_of_keys. intros Hk. unfold mapping_of.
  rewrite (dict_get_keyed (fun k => omap (dict_get k) members)).
  by rewrite decide_True by done.
Qed.

Lemma kept_keys_Group (ks : list (option string)) :
  kept_keys "Group" ks = filter (fun k => k <> Some "Group") ks.
Proof. reflexivity. Qed.

Lemma kept_keys_EmailAddress (ks : list (option string)) :
  kept_keys "EmailAddress" ks = ks.
Proof. reflexivity. Qed.

(** The cells of a key that every member has. *)
Lemma omap_total (k : option string) (members : list row) :
  Forall (fun r => k ∈ dict_keys r) members ->
  length (omap (dict_get k) members) = length members /\
  Forall2 (fun r c => dict_get k r = Some c) members (omap (dict_get k) members).
Proof.
  induction 1 as [|r members Hr _ [IHl IHf]]; [by split; [|constructor]|].
  apply dict_get_is_Some in Hr as [c Hc]. simpl. rewrite Hc. simpl. split.
  - f_equal. exact IHl.
  - by constructor.
Qed.

Lemma omap_members_of (g : string) (v : cell) (rows : list row) :
  omap (dict_get (Some g)) (members_of g v rows)
  = replicate (length (members_of g v rows)) v.
Proof.
  unfold members_of. induction rows as [|r rows IH]; [done|].
  destruct (decide (dict_get (Some g) r = Some v)) as [Hr|Hr].
  - rewrite filter_cons_True by done. simpl. rewrite Hr. simpl. f_equal. exact IH.
  - rewrite filter_cons_False by done. exact IH.
Qed.

Lemma uniform_keys (ks : list (option string)) (members : list row) :
  NoDup ks -> members <> [] ->
  Forall (fun r => dict_keys r = ks) members ->
  first_seen (flat_map dict_keys members) = ks.
Proof.
  intros Hnd Hne Hall. destruct members as [|r members]; [done|].
  apply Forall_cons in Hall as [Hr Hall]. simpl. rewrite Hr.
  rewrite first_seen_app_seen; [by apply first_seen_NoDup|].
  intros k Hk. apply list_elem_of_In, in_flat_map in Hk as (r' & Hr' & Hk).
  rewrite Forall_forall in Hall. apply list_elem_of_In in Hr'.
  rewrite (Hall r' Hr') in Hk. by apply list_elem_of_In.
Qed.

Lemma rows_fit_keys (fields : list string) (rest : list (list string)) :
  Forall (fits fields) rest ->
  Forall (fun r => dict_keys r = first_seen (map Some fields))
         (DictReader (fields :: rest)).
Proof.
  intros Hfit. simpl. apply Forall_forall. intros r Hr.
  apply list_elem_of_fmap in Hr as (record & -> & Hrec).
  apply list_elem_of_filter in Hrec as [_ Hrec].
  rewrite Forall_forall in Hfit. specialize (Hfit record Hrec). unfold fits in Hfit.
  rewrite next_row_keys.
  destruct (length fields <? length record)%nat eqn:Hlong.
  - apply Nat.ltb_lt in Hlong. lia.
  - by rewrite app_nil_r.
Qed.

Lemma rows_blank (fields : list string) (rest : list (list string)) :
  Forall (fun r => blank r = true) rest -> DictReader (fields :: rest) = [].
Proof.
  intros Hb. simpl. rewrite filter_none; [done|].
  intros r Hr. rewrite Forall_forall in Hb. rewrite (Hb r Hr). simpl. tauto.
Qed.

Lemma rows_not_blank (fields : list string) (rest : list (list string)) :
  Exists (fun r => blank r = false) rest -> DictReader (fields :: rest) <> [].
Proof.
  intros (r & Hr & Hb)%Exists_exists. simpl. intros Hnil.
  apply fmap_nil_inv in Hnil.
  apply (filter_nil_not_elem_of _ _ r Hnil); [by rewrite Hb|done].
Qed.

Lemma get_data_no_rows (records : list (list string)) :
  DictReader records = [] -> get_data records = Ok [].
Proof. intros Hrows. unfold get_data. by rewrite Hrows. Qed.

(** ** Properties of get_data *)

Example get_data_spec_scenario :
  get_data table_groups
  = Ok [ [ (Some "EmailAddress", [CStr "a1@x"; CStr "a2@x"]);
           (Some "Name", [CStr "Al"; CStr "Ann"]) ];
         [ (Some "EmailAddress", [CStr "b1@x"]); (Some "Name", [CStr "Bob"]) ] ].
Proof. reflexivity. Qed.

(** A record shorter than the header holds [None] in its missing columns. *)
Example get_data_short_record :
  get_data [ ["EmailAddress"; "Name"]; ["a@x"] ]
  = Ok [ [ (Some "EmailAddress", [CStr "a@x"]); (Some "Name", [CNone]) ] ].
Proof. reflexivity. Qed.

(** A blank header line leaves [Group] as the grouping column. *)
Example get_data_blank_header :
  get_data [ []; ["a@x"] ] = Raise (KeyError "Group").
Proof. reflexivity. Qed.

(** C4. For a table whose header has a column named [Group], [get_data]
    returns one mapping per distinct [Group] value: the distinct values
    [values] are taken in first-seen order, the i-th mapping is the
    consolidation of the member rows of the i-th value, and no mapping has a
    [Group] key. *)
Theorem get_data_one_mapping_per_group
    (fields : list string) (rest : list (list string)) :
  "Group" ∈ fields ->
  let rows := DictReader (fields :: rest) in
  let values := first_seen (group_values "Group" rows) in
  exists ms,
    get_data (fields :: rest) = Ok ms /\
    NoDup values /\
    (forall v, v ∈ values <-> (exists r, r ∈ rows /\ dict_get (Some "Group") r = Some v)) /\
    length ms = length values /\
    Forall2 (fun v m => consolidate "Group" (members_of "Group" v rows) = Ok m)
            values ms /\
    Forall (fun m => (Some "Group" ∉ dict_keys m) /\ dict_get (Some "Group") m = None) ms.
Proof.
  intros HG rows values.
  pose proof (get_data_consolidated fields rest) as Hget.
  rewrite select_groupby_Group in Hget by done. specialize (Hget HG).
  fold rows in Hget.
  assert (Hk : Forall (keyed "Group") rows) by (by apply rows_keyed).
  assert (Hnd : Forall (fun r => NoDup (dict_keys r)) rows) by apply rows_NoDup.
  exists (consolidated "Group" rows). repeat split.
  - exact Hget.
  - apply NoDup_first_seen.
  - unfold values. rewrite elem_of_first_seen. apply elem_of_group_values.
  - unfold values. rewrite elem_of_first_seen. apply elem_of_group_values.
  - apply consolidated_length.
  - apply consolidated_Forall2. intros v Hv. apply consolidate_spec.
    + by apply members_of_Forall.
    + by apply members_of_Forall.
    + by apply members_of_nonempty.
  - apply Forall_forall. intros m Hm. unfold consolidated in Hm.
    apply list_elem_of_fmap in Hm as (v & -> & _).
    assert (Hno : Some "Group" ∉ dict_keys (mapping_of "Group" (members_of "Group" v rows))).
    { rewrite mapping_of_keys, kept_keys_Group, list_elem_of_filter. tauto. }
    split; [done|]. by apply dict_get_None.
Qed.

Lemma get_data_one_mapping_per_group_witness :
  "Group" ∈ ["Group"; "EmailAddress"; "Name"] /\
  let rows := DictReader table_groups in
  let values := first_seen (group_values "Group" rows) in
  exists ms,
    get_data table_groups = Ok ms /\
    NoDup values /\
    (forall v, v ∈ values <-> (exists r, r ∈ rows /\ dict_get (Some "Group") r = Some v)) /\
    length ms = length values /\
    Forall2 (fun v m => consolidate "Group" (members_of "Group" v rows) = Ok m)
            values ms /\
    Forall (fun m => (Some "Group" ∉ dict_keys m) /\ dict_get (Some "Group") m = None) ms.
Proof.
  assert (H : "Group" ∈ ["Group"; "EmailAddress"; "Name"]) by (by left).
  split; [exact H|].
  exact (get_data_one_mapping_per_group
           ["Group"; "EmailAddress"; "Name"]
           [ ["A"; "a1@x"; "Al"]; ["A"; "a2@x"; "Ann"]; ["B"; "b1@x"; "Bob"] ] H).
Defined.

(** C5, as the code has it. For a table whose header lacks [Group] and has
    [EmailAddress], [get_data] groups by [EmailAddress]: one mapping per
    distinct address, in first-seen order; each mapping keeps its
    [EmailAddress] entry, which holds the group's address once per member
    row (so at least once). *)
Theorem get_data_groups_by_address
    (fields : list string) (rest : list (list string)) :
  "Group" ∉ fields -> "EmailAddress" ∈ fields ->
  let rows := DictReader (fields :: rest) in
  let values := first_seen (group_values "EmailAddress" rows) in
  exists ms,
    select_groupby (fieldnames (fields :: rest)) = "EmailAddress" /\
    get_data (fields :: rest) = Ok ms /\
    length ms = length values /\
    Forall2 (fun v m =>
               let members := members_of "EmailAddress" v rows in
               consolidate "EmailAddress" members = Ok m /\
               (1 <= length members)%nat /\
               dict_get (Some "EmailAddress") m = Some (replicate (length members) v))
            values ms.
Proof.
  intros HG HE rows values.
  assert (Hsel : select_groupby (Some fields) = "EmailAddress").
  { apply select_groupby_EmailAddress; [done|]. intros ->. by apply elem_of_nil in HE. }
  pose proof (get_data_consolidated fields rest) as Hget.
  rewrite Hsel in Hget. specialize (Hget HE). fold rows in Hget.
  assert (Hk : Forall (keyed "EmailAddress") rows) by (by apply rows_keyed).
  assert (Hnd : Forall (fun r => NoDup (dict_keys r)) rows) by apply rows_NoDup.
  exists (consolidated "EmailAddress" rows). repeat split.
  - exact Hsel.
  - exact Hget.
  - apply consolidated_length.
  - apply consolidated_Forall2. intros v Hv.
    pose proof (members_of_nonempty _ _ _ Hv) as Hne.
    cbv zeta. split; [|split].
    + apply consolidate_spec; [by apply members_of_Forall..|done].
    + by apply members_of_length.
    + rewrite mapping_of_get, omap_members_of; [done|].
      rewrite mapping_of_keys, kept_keys_EmailAddress, elem_of_first_seen.
      destruct (members_of "EmailAddress" v rows) as [|r members] eqn:Hm; [done|].
      assert (Hr : r ∈ members_of "EmailAddress" v rows) by (rewrite Hm; by left).
      apply elem_of_members_of in Hr as [_ Hr].
      simpl. rewrite elem_of_app. left. apply dict_get_is_Some. by eexists.
Qed.

Lemma get_data_groups_by_address_witness :
  ("Group" ∉ ["EmailAddress"; "Name"]) /\
  "EmailAddress" ∈ ["EmailAddress"; "Name"] /\
  let rows := DictReader table_repeated_address in
  let values := first_seen (group_values "EmailAddress" rows) in
  exists ms,
    select_groupby (fieldnames table_repeated_address) = "EmailAddress" /\
    get_data table_repeated_address = Ok ms /\
    length ms = length values /\
    Forall2 (fun v m =>
               let members := members_of "EmailAddress" v rows in
               consolidate "EmailAddress" members = Ok m /\
               (1 <= length members)%nat /\
               dict_get (Some "EmailAddress") m = Some (replicate (length members) v))
            values ms.
Proof.
  assert (HG : "Group" ∉ ["EmailAddress"; "Name"]).
  { apply (bool_decide_unpack _). by vm_compute. }
  assert (HE : "EmailAddress" ∈ ["EmailAddress"; "Name"]) by (by left).
  split; [exact HG|]. split; [exact HE|].
  exact (get_data_groups_by_address
           ["EmailAddress"; "Name"] [ ["a@x"; "Al"]; ["a@x"; "Ann"] ] HG HE).
Defined.

(** C5 as stated fails: two rows with the same address give one mapping
    whose [EmailAddress] entry has two elements. *)
Lemma get_data_repeated_address_counterexample :
  ("Group" ∉ ["EmailAddress"; "Name"]) /\
  "EmailAddress" ∈ ["EmailAddress"; "Name"] /\
  get_data table_repeated_address
  = Ok [ [ (Some "EmailAddress", [CStr "a@x"; CStr "a@x"]);
           (Some "Name", [CStr "Al"; CStr "Ann"]) ] ] /\
  ~ (exists ms, get_data table_repeated_address = Ok ms /\
                Forall (fun m => exists a, dict_get (Some "EmailAddress") m = Some [a]) ms).
Proof.
  split; [apply (bool_decide_unpack _); by vm_compute|].
  split; [by left|]. split; [reflexivity|].
  intros (ms & Hms & Hall). vm_compute in Hms. injection Hms as <-.
  apply Forall_cons in Hall as [(a & Ha) _]. vm_compute in Ha. discriminate Ha.
Qed.

(** C10. Only a column named exactly [Group] selects group mode. For a
    header without [Group] and with [EmailAddress], grouping is by
    [EmailAddress] and every column [c] of the header, in particular one
    named [group] in another casing, is an entry of every mapping, holding
    the cells of the member rows. *)
Theorem get_data_group_column_case_sensitive
    (fields : list string) (rest : list (list string)) (c : string) :
  c ∈ fields -> casefold c = codepoints "group" -> "Group" ∉ fields -> "EmailAddress" ∈ fields ->
  let rows := DictReader (fields :: rest) in
  let values := first_seen (group_values "EmailAddress" rows) in
  exists ms,
    select_groupby (fieldnames (fields :: rest)) = "EmailAddress" /\
    get_data (fields :: rest) = Ok ms /\
    Forall2 (fun v m =>
               let members := members_of "EmailAddress" v rows in
               consolidate "EmailAddress" members = Ok m /\
               Some c ∈ dict_keys m /\
               exists cells,
                 dict_get (Some c) m = Some cells /\
                 Forall2 (fun r x => dict_get (Some c) r = Some x) members cells)
            values ms.
Proof.
  intros Hc _ HG HE rows values.
  assert (Hsel : select_groupby (Some fields) = "EmailAddress").
  { apply select_groupby_EmailAddress; [done|]. intros ->. by apply elem_of_nil in HE. }
  pose proof (get_data_consolidated fields rest) as Hget.
  rewrite Hsel in Hget. specialize (Hget HE). fold rows in Hget.
  assert (Hk : Forall (keyed "EmailAddress") rows) by (by apply rows_keyed).
  assert (Hkc : Forall (keyed c) rows) by (by apply rows_keyed).
  assert (Hnd : Forall (fun r => NoDup (dict_keys r)) rows) by apply rows_NoDup.
  exists (consolidated "EmailAddress" rows). repeat split.
  - exact Hsel.
  - exact Hget.
  - apply consolidated_Forall2. intros v Hv.
    pose proof (members_of_nonempty _ _ _ Hv) as Hne.
    assert (Hmc : Forall (fun r => Some c ∈ dict_keys r)
                    (members_of "EmailAddress" v rows)).
    { apply members_of_Forall. eapply Forall_impl; [exact Hkc|].
      intros r (x & Hx & _). apply dict_get_is_Some. by exists x. }
    assert (Hin : Some c ∈ dict_keys (mapping_of "EmailAddress"
                                        (members_of "EmailAddress" v rows))).
    { rewrite mapping_of_keys, kept_keys_EmailAddress, elem_of_first_seen.
      destruct (members_of "EmailAddress" v rows) as [|r members]; [done|].
      apply Forall_cons in Hmc as [Hr _]. simpl. rewrite elem_of_app. by left. }
    cbv zeta. split; [|split].
    + apply consolidate_spec; [by apply members_of_Forall..|done].
    + exact Hin.
    + eexists. split; [by apply mapping_of_get|]. by apply omap_total.
Qed.

Lemma get_data_group_column_case_sensitive_witness :
  "group" ∈ ["group"; "EmailAddress"] /\
  casefold "group" = codepoints "group" /\
  ("Group" ∉ ["group"; "EmailAddress"]) /\
  "EmailAddress" ∈ ["group"; "EmailAddress"] /\
  let rows := DictReader table_lowercase_group in
  let values := first_seen (group_values "EmailAddress" rows) in
  exists ms,
    select_groupby (fieldnames table_lowercase_group) = "EmailAddress" /\
    get_data table_lowercase_group = Ok ms /\
    Forall2 (fun v m =>
               let members := members_of "EmailAddress" v rows in
               consolidate "EmailAddress" members = Ok m /\
               Some "group" ∈ dict_keys m /\
               exists cells,
                 dict_get (Some "group") m = Some cells /\
                 Forall2 (fun r x => dict_get (Some "group") r = Some x) members cells)
            values ms.
Proof.
  assert (Hc : "group" ∈ ["group"; "EmailAddress"]) by (by left).
  assert (Hf : casefold "group" = codepoints "group") by reflexivity.
  assert (HG : "Group" ∉ ["group"; "EmailAddress"]).
  { apply (bool_decide_unpack _). by vm_compute. }
  assert (HE : "EmailAddress" ∈ ["group"; "EmailAddress"]) by (right; by left).
  split; [exact Hc|]. split; [exact Hf|]. split; [exact HG|]. split; [exact HE|].
  exact (get_data_group_column_case_sensitive
           ["group"; "EmailAddress"] [ ["A"; "a1@x"]; ["A"; "a2@x"] ] "group"
           Hc Hf HG HE).
Defined.

Lemma kept_keys_subseteq (g : string) (ks : list (option string)) (k : option string) :
  k ∈ kept_keys g ks -> k ∈ ks.
Proof.
  unfold kept_keys. destruct (bool_decide (casefold g = codepoints "group")); [|done].
  rewrite list_elem_of_filter. tauto.
Qed.

(** C7, as the code has it. For a table that [get_data] accepts and in
    which no data record has more fields than the header has columns, every
    mapping has the same keys, the header's columns without a dropped
    [Group], and under every key a sequence with one cell per member row
    of its group, in member order; every group has at least one member. *)
Theorem get_data_mapping_shape
    (fields : list string) (rest : list (list string)) (ms : list mapping) :
  get_data (fields :: rest) = Ok ms ->
  Forall (fits fields) rest ->
  let g := select_groupby (Some fields) in
  let rows := DictReader (fields :: rest) in
  let keys := kept_keys g (first_seen (map Some fields)) in
  Forall2 (fun v m =>
             let members := members_of g v rows in
             (1 <= length members)%nat /\
             dict_keys m = keys /\
             forall k, k ∈ keys ->
               exists cells,
                 dict_get k m = Some cells /\
                 length cells = length members /\
                 Forall2 (fun r x => dict_get k r = Some x) members cells)
          (first_seen (group_values g rows)) ms.
Proof.
  intros Hget Hfit g rows keys.
  destruct (decide (g ∈ fields)) as [Hg|Hg].
  - rewrite get_data_consolidated in Hget by done. injection Hget as <-.
    fold g rows.
    pose proof (rows_fit_keys fields rest Hfit) as Hkeys. fold rows in Hkeys.
    apply consolidated_Forall2. intros v Hv.
    pose proof (members_of_nonempty _ _ _ Hv) as Hne.
    pose proof (members_of_Forall _ g v rows Hkeys) as Hmk.
    assert (Hmkeys : dict_keys (mapping_of g (members_of g v rows)) = keys).
    { rewrite mapping_of_keys. unfold keys. f_equal.
      apply uniform_keys; [apply NoDup_first_seen|done|done]. }
    cbv zeta. split; [|split].
    + by apply members_of_length.
    + exact Hmkeys.
    + intros k Hk. exists (omap (dict_get k) (members_of g v rows)).
      assert (Hall : Forall (fun r => k ∈ dict_keys r) (members_of g v rows)).
      { eapply Forall_impl; [exact Hmk|]. intros r ->.
        by apply (kept_keys_subseteq g). }
      destruct (omap_total k _ Hall) as [Hlen Hcells].
      split; [|by split]. apply mapping_of_get. by rewrite Hmkeys.
  - destruct rows as [|r rows'] eqn:Hrows.
    + rewrite get_data_no_rows in Hget by done. injection Hget as <-.
      simpl. constructor.
    + rewrite get_data_missing_column in Hget; [done|done|].
      fold rows. by rewrite Hrows.
Qed.

Lemma get_data_mapping_shape_witness :
  exists ms,
    get_data table_groups = Ok ms /\
    Forall (fits ["Group"; "EmailAddress"; "Name"])
           [ ["A"; "a1@x"; "Al"]; ["A"; "a2@x"; "Ann"]; ["B"; "b1@x"; "Bob"] ] /\
    let g := select_groupby (Some ["Group"; "EmailAddress"; "Name"]) in
    let rows := DictReader table_groups in
    let keys := kept_keys g (first_seen (map Some ["Group"; "EmailAddress"; "Name"])) in
    Forall2 (fun v m =>
               let members := members_of g v rows in
               (1 <= length members)%nat /\
               dict_keys m = keys /\
               forall k, k ∈ keys ->
                 exists cells,
                   dict_get k m = Some cells /\
                   length cells = length members /\
                   Forall2 (fun r x => dict_get k r = Some x) members cells)
            (first_seen (group_values g rows)) ms.
Proof.
  eexists.
  assert (Hget : get_data table_groups = Ok _) by reflexivity.
  assert (Hfit : Forall (fits ["Group"; "EmailAddress"; "Name"])
                   [ ["A"; "a1@x"; "Al"]; ["A"; "a2@x"; "Ann"]; ["B"; "b1@x"; "Bob"] ]).
  { repeat constructor. }
  split; [exact Hget|]. split; [exact Hfit|].
  exact (get_data_mapping_shape _ _ _ Hget Hfit).
Defined.

(** C7 as stated fails: a record with a surplus field puts its surplus
    under the key [None], which is no column of the header and whose
    sequence has one cell for a group of two rows. *)
Lemma get_data_surplus_field_counterexample :
  get_data table_surplus_field
  = Ok [ [ (Some "EmailAddress", [CStr "a@x"; CStr "a@x"]);
           (Some "Name", [CStr "Al"; CStr "Ann"]);
           (None, [CRest ["extra"]]) ] ] /\
  length (members_of "EmailAddress" (CStr "a@x") (DictReader table_surplus_field)) = 2%nat /\
  ~ (exists ms, get_data table_surplus_field = Ok ms /\
       Forall (fun m => forall k cells, dict_get k m = Some cells ->
                 (exists c, k = Some c /\ c ∈ ["EmailAddress"; "Name"]) /\
                 length cells = 2%nat) ms).
Proof.
  split; [reflexivity|]. split; [reflexivity|].
  intros (ms & Hms & Hall). vm_compute in Hms. injection Hms as <-.
  apply Forall_cons in Hall as [Hm _].
  destruct (Hm None [CRest ["extra"]]) as [_ Hlen]; [reflexivity|].
  simpl in Hlen. lia.
Qed.

(** C2, as the code has it. A header with neither [Group] nor
    [EmailAddress] makes [get_data] fail only when a data row is read, and
    then with the [KeyError] of the missing grouping column: [EmailAddress],
    or [Group] for a blank header line. Without data rows, or without any
    header, the result is the empty sequence. *)
Theorem get_data_missing_required_columns
    (fields : list string) (rest : list (list string)) :
  "Group" ∉ fields -> "EmailAddress" ∉ fields ->
  Exists (fun r => blank r = false) rest ->
  get_data (fields :: rest)
  = Raise (KeyError (match fields with [] => "Group" | _ :: _ => "EmailAddress" end)) /\
  get_data [fields] = Ok [] /\
  get_data [] = Ok [].
Proof.
  intros HG HE Hrow. split; [|by split].
  assert (Hsel : select_groupby (Some fields)
                 = match fields with [] => "Group" | _ :: _ => "EmailAddress" end).
  { destruct fields as [|f fields]; [done|]. by apply select_groupby_EmailAddress. }
  rewrite <- Hsel. apply get_data_missing_column.
  - rewrite Hsel. by destruct fields.
  - by apply rows_not_blank.
Qed.

Lemma get_data_missing_required_columns_witness :
  ("Group" ∉ ["Name"]) /\ ("EmailAddress" ∉ ["Name"]) /\
  Exists (fun r => blank r = false) [ ["Al"] ] /\
  get_data table_no_required_column = Raise (KeyError "EmailAddress") /\
  get_data [ ["Name"] ] = Ok [] /\
  get_data [] = Ok [].
Proof.
  assert (HG : "Group" ∉ ["Name"]) by (apply (bool_decide_unpack _); by vm_compute).
  assert (HE : "EmailAddress" ∉ ["Name"]) by (apply (bool_decide_unpack _); by vm_compute).
  assert (Hrow : Exists (fun r => blank r = false) [ ["Al"] ]) by (by left).
  split; [exact HG|]. split; [exact HE|]. split; [exact Hrow|].
  exact (get_data_missing_required_columns ["Name"] [ ["Al"] ] HG HE Hrow).
Defined.

(** C2 as stated fails: a table without a header row is not an error. *)
Lemma get_data_no_header_counterexample :
  fieldnames [] = None /\
  get_data [] = Ok [] /\
  ~ (exists e, get_data [] = Raise e).
Proof.
  split; [reflexivity|]. split; [reflexivity|].
  intros (e & He). discriminate He.
Qed.

(** ** The parsed document *)

Lemma find_string_Tag p name attrs children :
  find_string p (Tag name attrs children) = find_children p children.
Proof. reflexivity. Qed.


Lemma first_accepted_app p (a b : list (string_class * string)) :
  first_accepted p (a ++ b)
  = match first_accepted p a with
    | Some r => Some r
    | None => first_accepted p b
    end.
Proof.
  induction a as [|kx a IH]; simpl; [done|].
  by destruct (p (fst kx) (snd kx)).
Qed.


(** [find] visits the strings in document order. *)
Lemma find_string_first_accepted p (n : node) :
  find_string p n = first_accepted p (find_all_strings n).
Proof.
  induction n as [cls x|name attrs children IH] using node_ind.
  - simpl. by destruct (p cls x).
  - rewrite find_string_Tag. simpl.
    induction IH as [|c cs Hc _ IHcs]; simpl; [done|].
    rewrite first_accepted_app, <- Hc, <- IHcs. done.
Qed.





(** ** Strings *)

Lemma split_once_found (sep : ascii) (a b : string) :
  contains_char sep a = false ->
  split_once sep (a ++ String sep b)%string = [a; b].
Proof.
  induction a as [|c a IH]; simpl; intros Ha.
  - by rewrite Ascii.eqb_refl.
  - apply orb_false_elim in Ha as [Hc Ha]. rewrite Hc, IH by done. done.
Qed.

Lemma split_once_absent (sep : ascii) (x : string) :
  contains_char sep x = false -> split_once sep x = [x].
Proof.
  induction x as [|c x IH]; simpl; intros Hx; [done|].
  apply orb_false_elim in Hx as [Hc Hx]. rewrite Hc, IH by done. done.
Qed.

Lemma append_assoc (a b c : string) : ((a ++ b) ++ c = a ++ (b ++ c))%string.
Proof.
  induction a as [|x a IH]; [reflexivity|].
  change (String x ((a ++ b) ++ c) = String x (a ++ (b ++ c)))%string.
  f_equal. exact IH.
Qed.



Lemma is_subject_comment_truthy (x : string) :
  is_subject_comment Comment x = true -> truthy_str x = true.
Proof. destruct x; [discriminate|done]. Qed.

(** ** Case and whitespace *)

Lemma nat_of_ascii_inj (c l : ascii) : nat_of_ascii c = nat_of_ascii l -> c = l.
Proof. intros H. by rewrite <- (ascii_nat_embedding c), H, ascii_nat_embedding. Qed.

Lemma casefold_app (a b : string) : casefold (a ++ b) = casefold a ++ casefold b.
Proof.
  induction a as [|c a IH]; [reflexivity|].
  change (casefold_char c ++ casefold (a ++ b)
          = (casefold_char c ++ casefold a) ++ casefold b).
  by rewrite IH, app_assoc.
Qed.

Lemma startswith_app (p s : list nat) : startswith (p ++ s) p = true.
Proof.
  induction p as [|a p IH]; [by destruct s|].
  cbn [startswith app]. by rewrite Nat.eqb_refl.
Qed.

(** [str.casefold] on one code point, case by case. *)
Lemma casefold_char_cases (c : ascii) :
  let n := nat_of_ascii c in
  (65 <= n <= 90 /\ casefold_char c = [n + 32]) \/
  (n = 181 /\ casefold_char c = [956]) \/
  (192 <= n <= 222 /\ n <> 215 /\ casefold_char c = [n + 32]) \/
  (n = 223 /\ casefold_char c = [115; 115]) \/
  ((n < 65 \/ 90 < n < 192 \/ n = 215 \/ 223 < n) /\ n <> 181 /\ casefold_char c = [n]).
Proof.
  unfold casefold_char. generalize (nat_of_ascii c). intros n. cbv zeta.
  destruct (Nat.leb_spec 65 n), (Nat.leb_spec n 90), (Nat.eqb_spec n 181),
    (Nat.leb_spec 192 n), (Nat.leb_spec n 214), (Nat.leb_spec 216 n),
    (Nat.leb_spec n 222), (Nat.eqb_spec n 223); cbn [andb orb];
    try lia; intuition lia.
Qed.

(** A letter in either case folds to the small letter; it is neither
    whitespace nor a colon. *)
Lemma same_letter_fold (c l : ascii) :
  small_letter l -> same_letter c l ->
  casefold_char c = [nat_of_ascii l] /\ isspace c = false /\ Ascii.eqb c ":" = false.
Proof.
  intros Hl Hc. unfold small_letter in Hl.
  assert (Hn : nat_of_ascii c = nat_of_ascii l \/ nat_of_ascii c + 32 = nat_of_ascii l).
  { destruct Hc as [->|Hc]; auto. }
  clear Hc. split; [|split].
  - destruct (casefold_char_cases c)
      as [[H ->]|[[H ->]|[(H & H' & ->)|[[H ->]|(H & H' & ->)]]]];
      f_equal; lia.
  - unfold isspace. cbv zeta.
    destruct (Nat.leb_spec 9 (nat_of_ascii c)), (Nat.leb_spec (nat_of_ascii c) 13),
      (Nat.leb_spec 28 (nat_of_ascii c)), (Nat.leb_spec (nat_of_ascii c) 32),
      (Nat.eqb_spec (nat_of_ascii c) 133), (Nat.eqb_spec (nat_of_ascii c) 160);
      cbn [andb orb]; first [reflexivity | lia].
  - destruct (Ascii.eqb_spec c ":") as [->|]; [|done].
    exfalso. change (nat_of_ascii ":") with 58 in Hn. lia.
Qed.



Lemma lstrip_blank (pad s : string) :
  blank_text pad -> lstrip (pad ++ s) = lstrip s.
Proof.
  induction pad as [|c pad IH]; intros Hpad; [reflexivity|].
  destruct Hpad as [Hc Hpad].
  change (lstrip (String c (pad ++ s)) = lstrip s). simpl. rewrite Hc. by apply IH.
Qed.

Lemma lstrip_split (x : string) :
  exists pad, x = (pad ++ lstrip x)%string /\ blank_text pad.
Proof.
  induction x as [|c x (pad & IH & Hpad)]; [by exists EmptyString|].
  simpl. destruct (isspace c) eqn:Hc.
  - exists (String c pad). split; [|done].
    change (String c x = String c (pad ++ lstrip x))%string. by rewrite <- IH.
  - by exists EmptyString.
Qed.

Lemma rstrip_cons (c : ascii) (s : string) :
  rstrip (String c s)
  = match rstrip s with
    | EmptyString => if isspace c then EmptyString else String c EmptyString
    | t => String c t
    end.
Proof. reflexivity. Qed.

Lemma rstrip_nonspace (c : ascii) (s : string) :
  isspace c = false -> rstrip (String c s) = String c (rstrip s).
Proof. intros Hc. rewrite rstrip_cons, Hc. by destruct (rstrip s). Qed.

Lemma rstrip_prefix (t : string) : exists w, t = (rstrip t ++ w)%string.
Proof.
  induction t as [|c t [w IH]]; [by exists EmptyString|].
  simpl. destruct (rstrip t) as [|a r] eqn:Ht.
  - destruct (isspace c).
    + by exists (String c t).
    + exists t. reflexivity.
  - exists w. change (String c t = String c (String a r ++ w))%string.
    by rewrite <- IH.
Qed.

(** A word in any casing: how it folds, and that trimming keeps it. *)
Lemma spells_facts (word w : string) :
  small_word word -> spells word w ->
  casefold w = codepoints word /\
  contains_char ":" w = false /\
  (forall rest, rstrip (w ++ rest) = (w ++ rstrip rest)%string) /\
  (forall rest, w <> EmptyString -> lstrip (w ++ rest) = (w ++ rest)%string).
Proof.
  revert w. induction word as [|l word IH]; intros [|c w] Hword Hw; try done.
  destruct Hword as [Hl Hword]. destruct Hw as [Hc Hw].
  destruct (same_letter_fold c l Hl Hc) as (Hfold & Hspace & Hcolon).
  destruct (IH w Hword Hw) as (IH1 & IH2 & IH3 & _).
  split; [|split; [|split]].
  - cbn [casefold codepoints]. by rewrite Hfold, IH1.
  - simpl. by rewrite Hcolon, IH2.
  - intros rest.
    change (rstrip (String c (w ++ rest)) = String c (w ++ rstrip rest))%string.
    by rewrite rstrip_nonspace, IH3.
  - intros rest _.
    change (lstrip (String c (w ++ rest)) = String c (w ++ rest))%string.
    simpl. by rewrite Hspace.
Qed.

(** The folded text starts with a small letter only when the text starts
    with that letter, in either case; the sharp s folds to two letters s. *)
Lemma startswith_casefold_letter (s : string) (l : ascii) (p : list nat) :
  small_letter l ->
  (nat_of_ascii l = 115 -> exists q p', p = q :: p' /\ q <> 115) ->
  startswith (casefold s) (nat_of_ascii l :: p) = true ->
  exists c s', s = String c s' /\ same_letter c l /\ startswith (casefold s') p = true.
Proof.
  intros Hl Hs H. unfold small_letter in Hl. destruct s as [|c s']; [discriminate|].
  exists c, s'. split; [done|]. cbn [casefold] in H. unfold same_letter.
  destruct (casefold_char_cases c)
    as [[Hn Hf]|[[Hn Hf]|[(Hn & Hn' & Hf)|[[Hn Hf]|(Hn & Hn' & Hf)]]]];
    rewrite Hf in H; cbn [app startswith] in H;
    apply andb_true_iff in H as [Hk%Nat.eqb_eq H].
  - split; [right; lia|done].
  - lia.
  - lia.
  - destruct Hs as (q & p' & -> & Hq); [lia|].
    cbn [startswith] in H. apply andb_true_iff in H as [Hq'%Nat.eqb_eq _]. lia.
  - split; [left; by apply nat_of_ascii_inj|done].
Qed.

Lemma small_word_subject : small_word "subject".
Proof. unfold small_word, small_letter. vm_compute. lia. Qed.

Lemma startswith_subject (s : string) :
  startswith (casefold s) (codepoints "subject") = true ->
  exists w r, s = (w ++ r)%string /\ spells "subject" w.
Proof.
  intros H. cbn [codepoints] in H.
  do 7 (apply startswith_casefold_letter in H as (? & ? & -> & ? & H);
        [|unfold small_letter; vm_compute; lia
         |first [ intros E; vm_compute in E; lia
                | intros _; eexists _, _; split; [reflexivity|vm_compute; lia] ]]).
  eexists (String _ (String _ (String _ (String _ (String _ (String _ (String _
             EmptyString))))))), _.
  split; [reflexivity|]. simpl. done.
Qed.

(** The filter of [send] accepts the comments that hold a subject
    directive, and no others. *)
Lemma is_subject_comment_directive (x : string) :
  is_subject_comment Comment x = true <-> subject_directive x.
Proof.
  unfold is_subject_comment, strip. split.
  - intros H. apply startswith_subject in H as (w & r & Hs & Hw).
    destruct (lstrip_split x) as (pad & Hx & Hpad).
    destruct (rstrip_prefix (lstrip x)) as [t Ht].
    exists pad, w, (r ++ t)%string. split; [|done].
    rewrite Hx at 1. f_equal. rewrite Ht at 1. by rewrite Hs, append_assoc.
  - intros (pad & w & rest & -> & Hpad & Hw).
    destruct (spells_facts "subject" w small_word_subject Hw) as (Hfold & _ & Hr & Hl).
    rewrite lstrip_blank by done. rewrite Hl by (by destruct w).
    rewrite Hr, casefold_app, Hfold. apply startswith_app.
Qed.



(** ** The message that send builds *)


Section compose_facts.
Context {L : Libraries}.

(** The strings of the parsed document of a body, in document order. *)
Local Abbreviation strings_of body :=
  (find_all_strings (Tag "[document]" [] (BeautifulSoup (gfm_to_html body)))).




End compose_facts.

(** ** Properties of the composed message *)










(** ** The transmission loop *)

Lemma io_for_app {A : Type} (xs ys : list A) (body : A -> io unit) (s : smtp) :
  io_for (xs ++ ys) body s
  = match io_for xs body s with
    | (Ok _, s') => io_for ys body s'
    | (Raise e, s') => (Raise e, s')
    end.
Proof.
  revert s. induction xs as [|x xs IH]; intros s; simpl; [done|].
  unfold io_bind. destruct (body x s) as [[[]|e] s']; [apply IH|done].
Qed.

Section batch_facts.
Context {L : Libraries}.

(** What the loop body does with one mapping. *)
Lemma send_row_cases (tpl : template) (sender : string) (r : mapping) (s : smtp) :
  send_row tpl sender r s
  = match (kw <- kwargs r ;; render tpl kw) with
    | Raise e => (Raise e, s)
    | Ok body =>
        match dict_get (Some "EmailAddress") r with
        | None => (Raise (KeyError "EmailAddress"), s)
        | Some recipients =>
            match compose sender recipients body with
            | Raise e => (Raise e, s)
            | Ok m =>
                match send_message (outbox s) m with
                | Some e => (Raise e, s)
                | None => (Ok tt, Smtp (is_open s) (outbox s ++ [m]))
                end
            end
        end
    end.
Proof.
  unfold send_row, send, io_bind, io_lift, server_send_message.
  destruct (kw <- kwargs r ;; render tpl kw) as [body|e]; [|done].
  destruct (dict_get (Some "EmailAddress") r) as [recipients|]; [|done].
  destruct (compose sender recipients body) as [m|e]; [|done].
  by destruct (send_message (outbox s) m).
Qed.

Lemma io_for_delivered (tpl : template) (sender : string)
    (rows : list mapping) (s s' : smtp) :
  io_for rows (send_row tpl sender) s = (Ok tt, s') ->
  exists ms,
    s' = Smtp (is_open s) (outbox s ++ ms) /\
    Forall2 (delivered tpl sender) rows ms.
Proof.
  revert s. induction rows as [|r rows IH]; intros s; simpl.
  - intros [= <-]. exists []. rewrite app_nil_r. by destruct s.
  - unfold io_bind. rewrite send_row_cases.
    destruct (kw <- kwargs r ;; render tpl kw) as [body|e] eqn:Hbody; [|done].
    destruct (dict_get (Some "EmailAddress") r) as [recipients|] eqn:Hto; [|done].
    destruct (compose sender recipients body) as [m|e] eqn:Hm; [|done].
    destruct (send_message (outbox s) m) eqn:Hsend; [done|].
    intros Hrest. apply IH in Hrest as (ms & -> & Hms). simpl.
    exists (m :: ms). split.
    + by rewrite <- app_assoc.
    + constructor; [|done]. by exists body, recipients.
Qed.

(** With the session established, [send_batch] is its loop followed by
    QUIT, whose error replaces the result of the loop. *)
Lemma send_batch_session (data : list mapping) (tpl : template)
    (username password : string) (sender : option string) :
  connect = None -> starttls = None -> login username password = None ->
  send_batch data tpl username password sender
  = let loop := io_for data (send_row tpl (default username sender)) (Smtp true []) in
    (match quit (outbox (snd loop)) with
     | Some e => Raise e
     | None => fst loop
     end,
     Smtp false (outbox (snd loop))).
Proof.
  intros Hc Ht Hl. unfold send_batch. rewrite Hc, Ht, Hl.
  unfold io_check, io_bind, io_ret. cbv zeta.
  destruct (io_for data _ _) as [r server]. simpl.
  by destruct (quit (outbox server)).
Qed.

(** C8, as the code has it. When the mappings before one are delivered
    and that one fails, in rendering, for want of recipients, in a header
    that the message refuses or in transmission, the loop ends there and
    the session is left with QUIT: [send_batch] ends with the error of
    QUIT when the relay refuses it and with the error of the mapping
    otherwise, and the session has transmitted the messages of the
    mappings before it and nothing else: none for the failing mapping,
    none for a later one, none withdrawn, none sent twice. A failure of
    the first mapping leaves nothing transmitted. *)
Theorem send_batch_aborts_at_first_failure
    (pre post : list mapping) (r : mapping) (tpl : template)
    (username password : string) (sender : option string) (s1 : smtp) (e : exn) :
  let from := default username sender in
  connect = None -> starttls = None -> login username password = None ->
  io_for pre (send_row tpl from) (Smtp true []) = (Ok tt, s1) ->
  ((kw <- kwargs r ;; render tpl kw) = Raise e \/
   (exists body,
      (kw <- kwargs r ;; render tpl kw) = Ok body /\
      dict_get (Some "EmailAddress") r = None /\
      e = KeyError "EmailAddress") \/
   (exists body recipients,
      (kw <- kwargs r ;; render tpl kw) = Ok body /\
      dict_get (Some "EmailAddress") r = Some recipients /\
      compose from recipients body = Raise e) \/
   exists body recipients m,
     (kw <- kwargs r ;; render tpl kw) = Ok body /\
     dict_get (Some "EmailAddress") r = Some recipients /\
     compose from recipients body = Ok m /\
     send_message (outbox s1) m = Some e) ->
  send_batch (pre ++ r :: post) tpl username password sender
  = (Raise (default e (quit (outbox s1))), Smtp false (outbox s1)) /\
  (quit (outbox s1) = None ->
   send_batch (pre ++ r :: post) tpl username password sender
   = (Raise e, Smtp false (outbox s1))) /\
  Forall2 (delivered tpl from) pre (outbox s1) /\
  length (outbox s1) = length pre /\
  (pre = [] -> outbox s1 = []).
Proof.
  intros from Hconnect Htls Hlogin Hpre Hfail.
  destruct (io_for_delivered _ _ _ _ _ Hpre) as (ms & Hs1 & Hms).
  simpl in Hs1.
  assert (Hrow : send_row tpl from r s1 = (Raise e, s1)).
  { rewrite send_row_cases.
    destruct Hfail as [->|[(body & -> & -> & ->)|[(body & recipients & -> & -> & ->)
                      |(body & recipients & m & -> & -> & -> & ->)]]]; done. }
  assert (Hbatch : send_batch (pre ++ r :: post) tpl username password sender
                   = (Raise (default e (quit (outbox s1))), Smtp false (outbox s1))).
  { rewrite send_batch_session by done. fold from. cbv zeta.
    rewrite io_for_app, Hpre. cbn [io_for]. unfold io_bind. rewrite Hrow.
    cbn [fst snd]. by destruct (quit (outbox s1)). }
  split; [exact Hbatch|]. split; [|split; [|split]].
  - intros Hquit. by rewrite Hbatch, Hquit.
  - by rewrite Hs1.
  - rewrite Hs1. simpl. symmetry. by eapply Forall2_length.
  - intros ->. rewrite Hs1. simpl. by apply Forall2_nil_inv_l in Hms as ->.
Qed.

(** C9. A table whose data records are all blank, so that it has a header
    and no data row, gives the empty sequence of mappings, and the batch
    of that sequence transmits no message. *)
Theorem no_rows_no_messages
    (fields : list string) (rest : list (list string)) (tpl : template)
    (username password : string) (sender : option string) :
  Forall (fun record => blank record = true) rest ->
  exists ms,
    get_data (fields :: rest) = Ok ms /\
    ms = [] /\
    outbox (snd (send_batch ms tpl username password sender)) = [].
Proof.
  intros Hblank. exists []. split; [|split; [done|]].
  - apply get_data_no_rows. by apply rows_blank.
  - unfold send_batch.
    destruct connect; [done|]. unfold io_check, io_bind.
    destruct starttls; [simpl; by destruct (quit [])|]. simpl.
    destruct (login username password); simpl; by destruct (quit []).
Qed.
End batch_facts.

Lemma send_batch_aborts_at_first_failure_witness :
  let from := default "me@x" (@None string) in
  connect (Libraries := demo_libraries) = None /\
  starttls (Libraries := demo_libraries) = None /\
  login (Libraries := demo_libraries) "me@x" "secret" = None /\
  io_for [mapping_al]
         (send_row (L := demo_libraries) demo_tpl from)
         (Smtp true [])
  = (Ok tt, Smtp true [message_al]) /\
  ((kw <- kwargs mapping_nameless ;; demo_render demo_tpl kw)
   = Raise (TemplateError "undefined variable") \/
   (exists body,
      (kw <- kwargs mapping_nameless ;; demo_render demo_tpl kw) = Ok body /\
      dict_get (Some "EmailAddress") mapping_nameless = None /\
      TemplateError "undefined variable" = KeyError "EmailAddress") \/
   (exists body recipients,
      (kw <- kwargs mapping_nameless ;; demo_render demo_tpl kw) = Ok body /\
      dict_get (Some "EmailAddress") mapping_nameless = Some recipients /\
      compose (L := demo_libraries) from recipients body
      = Raise (TemplateError "undefined variable")) \/
   exists body recipients m,
     (kw <- kwargs mapping_nameless ;; demo_render demo_tpl kw) = Ok body /\
     dict_get (Some "EmailAddress") mapping_nameless = Some recipients /\
     compose (L := demo_libraries) from recipients body = Ok m /\
     demo_send_message (outbox (Smtp true [message_al])) m
     = Some (TemplateError "undefined variable")) /\
  send_batch (L := demo_libraries)
             ([mapping_al] ++ mapping_nameless :: [mapping_al]) demo_tpl
             "me@x" "secret" None
  = (Raise (default (TemplateError "undefined variable")
                    (quit (Libraries := demo_libraries)
                          (outbox (Smtp true [message_al])))),
     Smtp false (outbox (Smtp true [message_al]))) /\
  (quit (Libraries := demo_libraries) (outbox (Smtp true [message_al])) = None ->
   send_batch (L := demo_libraries)
              ([mapping_al] ++ mapping_nameless :: [mapping_al]) demo_tpl
              "me@x" "secret" None
   = (Raise (TemplateError "undefined variable"),
      Smtp false (outbox (Smtp true [message_al])))) /\
  Forall2 (delivered (L := demo_libraries) demo_tpl from)
          [mapping_al] (outbox (Smtp true [message_al])) /\
  length (outbox (Smtp true [message_al])) = length [mapping_al] /\
  ([mapping_al] = [] -> outbox (Smtp true [message_al]) = []).
Proof.
  intros from.
  assert (Hpre : io_for [mapping_al]
                   (send_row (L := demo_libraries) demo_tpl from)
                   (Smtp true [])
                 = (Ok tt, Smtp true [message_al])) by reflexivity.
  assert (Hfail : (kw <- kwargs mapping_nameless ;; demo_render demo_tpl kw)
                  = Raise (TemplateError "undefined variable") \/
                  (exists body,
                     (kw <- kwargs mapping_nameless ;; demo_render demo_tpl kw) = Ok body /\
                     dict_get (Some "EmailAddress") mapping_nameless = None /\
                     TemplateError "undefined variable" = KeyError "EmailAddress") \/
                  (exists body recipients,
                     (kw <- kwargs mapping_nameless ;; demo_render demo_tpl kw) = Ok body /\
                     dict_get (Some "EmailAddress") mapping_nameless = Some recipients /\
                     compose (L := demo_libraries) from recipients body
                     = Raise (TemplateError "undefined variable")) \/
                  exists body recipients m,
                    (kw <- kwargs mapping_nameless ;; demo_render demo_tpl kw) = Ok body /\
                    dict_get (Some "EmailAddress") mapping_nameless = Some recipients /\
                    compose (L := demo_libraries) from recipients body = Ok m /\
                    demo_send_message (outbox (Smtp true [message_al])) m
                    = Some (TemplateError "undefined variable")).
  { left. reflexivity. }
  split; [reflexivity|]. split; [reflexivity|]. split; [reflexivity|].
  split; [exact Hpre|]. split; [exact Hfail|].
  exact (send_batch_aborts_at_first_failure (L := demo_libraries)
           [mapping_al] [mapping_al] mapping_nameless demo_tpl "me@x" "secret" None
           (Smtp true [message_al]) (TemplateError "undefined variable")
           eq_refl eq_refl eq_refl Hpre Hfail).
Defined.

(** C8 as stated fails: when the relay refuses QUIT as the session is
    left, the error of QUIT is surfaced, not the error of the template
    that ended the loop. *)
Lemma send_batch_quit_error_counterexample :
  (kw <- kwargs mapping_nameless ;; demo_render demo_tpl kw)
  = Raise (TemplateError "undefined variable") /\
  quit (Libraries := hangup_libraries) [] = Some (SMTPException "QUIT refused") /\
  send_batch (L := hangup_libraries) [mapping_nameless] demo_tpl "me@x" "secret" None
  = (Raise (SMTPException "QUIT refused"), Smtp false []) /\
  fst (send_batch (L := hangup_libraries) [mapping_nameless] demo_tpl
         "me@x" "secret" None)
  <> Raise (TemplateError "undefined variable").
Proof.
  split; [reflexivity|]. split; [reflexivity|]. split; [reflexivity|].
  intros H. vm_compute in H. discriminate H.
Qed.

Lemma no_rows_no_messages_witness :
  Forall (fun record => blank record = true) [ @nil string ] /\
  exists ms,
    get_data [ ["Group"; "EmailAddress"]; [] ] = Ok ms /\
    ms = [] /\
    outbox (snd (send_batch (L := demo_libraries) ms demo_tpl "me@x" "secret" None))
    = [].
Proof.
  assert (Hblank : Forall (fun record => blank record = true) [ @nil string ]).
  { by repeat constructor. }
  split; [exact Hblank|].
  exact (no_rows_no_messages (L := demo_libraries)
           ["Group"; "EmailAddress"] [ [] ] demo_tpl "me@x" "secret" None Hblank).
Defined.

(** * Further properties *)

(** ** get_data: errors, columns and cells *)

Lemma select_groupby_cases (f : option (list string)) :
  select_groupby f = "Group" \/ select_groupby f = "EmailAddress".
Proof.
  unfold select_groupby.
  destruct (truthy_fieldnames f && negb (bool_decide ("Group" ∈ default [] f)));
    [by right|by left].
Qed.

Lemma get_data_Ok_cases (fields : list string) (rest : list (list string))
    (ms : list mapping) :
  get_data (fields :: rest) = Ok ms ->
  (select_groupby (Some fields) ∈ fields /\
   ms = consolidated (select_groupby (Some fields)) (DictReader (fields :: rest))) \/
  (DictReader (fields :: rest) = [] /\ ms = []).
Proof.
  intros Hget.
  destruct (decide (select_groupby (Some fields) ∈ fields)) as [Hg|Hg].
  - left. rewrite get_data_consolidated in Hget by done. by injection Hget as <-.
  - right. destruct (DictReader (fields :: rest)) as [|r rows] eqn:Hrows.
    + rewrite get_data_no_rows in Hget by done. by injection Hget as <-.
    + rewrite get_data_missing_column in Hget; [done|done|by rewrite Hrows].
Qed.

Lemma rows_nonempty_not_blank (fields : list string) (rest : list (list string)) :
  DictReader (fields :: rest) <> [] -> Exists (fun r => blank r = false) rest.
Proof.
  simpl. intros Hrows.
  destruct (filter (fun r => negb (blank r)) rest) as [|record l] eqn:Hf; [done|].
  assert (Hin : record ∈ filter (fun r => negb (blank r)) rest) by (rewrite Hf; by left).
  apply list_elem_of_filter in Hin as [Hb Hin].
  apply Exists_exists. exists record. split; [done|]. by destruct (blank record).
Qed.

(** X1. On the records that the csv reader yields from the file, the
    only error of the loops of [get_data] is the [KeyError] of the grouping
    column: it is raised when the header lacks that column and a data
    record is read. Neither the grouping loop nor the deletion of the
    [Group] entry fails otherwise. (Opening the file, decoding it and the
    csv parser are outside of [get_data] as it is modelled here, and so
    are their errors.) *)
Theorem get_data_error_is_missing_grouping_column
    (records : list (list string)) (e : exn) :
  get_data records = Raise e ->
  exists fields rest,
    records = fields :: rest /\
    e = KeyError (select_groupby (Some fields)) /\
    (select_groupby (Some fields) ∉ fields) /\
    Exists (fun r => blank r = false) rest.
Proof.
  intros Hget. destruct records as [|fields rest]; [discriminate Hget|].
  exists fields, rest. split; [done|].
  destruct (decide (select_groupby (Some fields) ∈ fields)) as [Hg|Hg].
  { rewrite get_data_consolidated in Hget by done. discriminate Hget. }
  destruct (DictReader (fields :: rest)) as [|r rows] eqn:Hrows.
  { rewrite get_data_no_rows in Hget by done. discriminate Hget. }
  assert (Hne : DictReader (fields :: rest) <> []) by (by rewrite Hrows).
  rewrite get_data_missing_column in Hget by done. injection Hget as <-.
  split; [done|]. split; [done|]. by apply (rows_nonempty_not_blank fields).
Qed.

Lemma get_data_error_is_missing_grouping_column_witness :
  get_data table_no_required_column = Raise (KeyError "EmailAddress") /\
  exists fields rest,
    table_no_required_column = fields :: rest /\
    KeyError "EmailAddress" = KeyError (select_groupby (Some fields)) /\
    (select_groupby (Some fields) ∉ fields) /\
    Exists (fun r => blank r = false) rest.
Proof.
  assert (Hget : get_data table_no_required_column = Raise (KeyError "EmailAddress"))
    by reflexivity.
  split; [exact Hget|].
  exact (get_data_error_is_missing_grouping_column _ _ Hget).
Defined.

Lemma elem_of_kept_keys (g : string) (ks : list (option string)) (k : string) :
  k <> "Group" -> Some k ∈ ks ->
  g = "Group" \/ g = "EmailAddress" ->
  Some k ∈ kept_keys g ks.
Proof.
  intros Hk Hin [->| ->].
  - rewrite kept_keys_Group, list_elem_of_filter. split; [congruence|done].
  - by rewrite kept_keys_EmailAddress.
Qed.

Lemma mapping_of_column (g k : string) (members : list row) :
  g = "Group" \/ g = "EmailAddress" ->
  k <> "Group" ->
  members <> [] ->
  Forall (fun r => Some k ∈ dict_keys r) members ->
  dict_get (Some k) (mapping_of g members) = Some (omap (dict_get (Some k)) members).
Proof.
  intros Hg Hk Hne Hall. apply mapping_of_get.
  rewrite mapping_of_keys. apply elem_of_kept_keys; [done| |done].
  rewrite elem_of_first_seen. destruct members as [|r members]; [done|].
  apply Forall_cons in Hall as [Hr _]. simpl. rewrite elem_of_app. by left.
Qed.

Lemma rows_have_column (fields : list string) (rest : list (list string)) (k : string) :
  k ∈ fields ->
  Forall (fun r => Some k ∈ dict_keys r) (DictReader (fields :: rest)).
Proof.
  intros Hk. eapply Forall_impl; [by apply (rows_keyed fields rest k)|].
  intros r (x & Hx & _). apply dict_get_is_Some. by exists x.
Qed.

(** X2. Surplus fields do not disturb the columns of the header: in every
    table that [get_data] accepts, ragged or not, every column of the
    header other than [Group] is an entry of every mapping and holds one
    cell per member row of the group, in member order. *)
Theorem get_data_keeps_header_columns
    (fields : list string) (rest : list (list string)) (ms : list mapping)
    (k : string) :
  get_data (fields :: rest) = Ok ms ->
  k ∈ fields -> k <> "Group" ->
  let g := select_groupby (Some fields) in
  let rows := DictReader (fields :: rest) in
  Forall2 (fun v m =>
             exists cells,
               dict_get (Some k) m = Some cells /\
               Forall2 (fun r x => dict_get (Some k) r = Some x)
                       (members_of g v rows) cells)
          (first_seen (group_values g rows)) ms.
Proof.
  intros Hget Hk Hne g rows.
  destruct (get_data_Ok_cases _ _ _ Hget) as [[Hg ->]|[Hrows ->]].
  - fold g rows. apply consolidated_Forall2. intros v Hv.
    assert (Hall : Forall (fun r => Some k ∈ dict_keys r) (members_of g v rows)).
    { apply members_of_Forall. by apply rows_have_column. }
    exists (omap (dict_get (Some k)) (members_of g v rows)). split.
    + apply mapping_of_column; [apply select_groupby_cases|done| |done].
      by apply members_of_nonempty.
    + by apply omap_total.
  - unfold rows. rewrite Hrows. simpl. constructor.
Qed.

Lemma get_data_keeps_header_columns_witness :
  exists ms,
    get_data table_surplus_field = Ok ms /\
    "Name" ∈ ["EmailAddress"; "Name"] /\
    "Name" <> "Group" /\
    let g := select_groupby (Some ["EmailAddress"; "Name"]) in
    let rows := DictReader table_surplus_field in
    Forall2 (fun v m =>
               exists cells,
                 dict_get (Some "Name") m = Some cells /\
                 Forall2 (fun r x => dict_get (Some "Name") r = Some x)
                         (members_of g v rows) cells)
            (first_seen (group_values g rows)) ms.
Proof.
  eexists.
  assert (Hget : get_data table_surplus_field = Ok _) by reflexivity.
  assert (Hk : "Name" ∈ ["EmailAddress"; "Name"]) by (right; by left).
  assert (Hne : "Name" <> "Group") by discriminate.
  split; [exact Hget|]. split; [exact Hk|]. split; [exact Hne|].
  exact (get_data_keeps_header_columns _ _ _ _ Hget Hk Hne).
Defined.

Lemma filter_all {A : Type} (P : A -> Prop) `{forall x, Decision (P x)} (l : list A) :
  Forall P l -> filter P l = l.
Proof.
  induction 1 as [|x l Hx _ IH]; [done|].
  rewrite filter_cons_True by done. by rewrite IH.
Qed.

Section partition.
Context {A B : Type} `{EqDecision B}.
Variable key : A -> option B.

Lemma filter_key_add (v : B) (vs : list B) (l : list A) :
  v ∉ vs ->
  filter (fun x => key x = Some v) l ++ filter (fun x => key x ∈ map Some vs) l
  ≡ₚ filter (fun x => key x ∈ map Some (v :: vs)) l.
Proof.
  intros Hv. induction l as [|x l IH]; [done|].
  destruct (decide (key x = Some v)) as [Hx|Hx].
  - rewrite (filter_cons_True (fun x => key x = Some v)) by done.
    rewrite (filter_cons_False (fun x => key x ∈ map Some vs)).
    + rewrite (filter_cons_True (fun x => key x ∈ map Some (v :: vs)))
        by (rewrite Hx; by left).
      simpl. by rewrite IH.
    + rewrite Hx, list_elem_of_fmap. intros (v' & [= <-] & Hv'). done.
  - rewrite (filter_cons_False (fun x => key x = Some v)) by done.
    destruct (decide (key x ∈ map Some vs)) as [Hin|Hin].
    + rewrite (filter_cons_True (fun x => key x ∈ map Some vs)) by done.
      rewrite (filter_cons_True (fun x => key x ∈ map Some (v :: vs)))
        by (by right).
      rewrite <- Permutation_middle. by rewrite IH.
    + rewrite (filter_cons_False (fun x => key x ∈ map Some vs)) by done.
      rewrite (filter_cons_False (fun x => key x ∈ map Some (v :: vs))); [done|].
      simpl. rewrite elem_of_cons. intros [Heq|Hin']; [by apply Hx|by apply Hin].
Qed.

Lemma partition_by_key (vs : list B) (l : list A) :
  NoDup vs ->
  flat_map (fun v => filter (fun x => key x = Some v) l) vs
  ≡ₚ filter (fun x => key x ∈ map Some vs) l.
Proof.
  induction 1 as [|v vs Hv _ IH]; simpl.
  - rewrite filter_none; [done|]. intros x _ Hx. by apply elem_of_nil in Hx.
  - rewrite IH. by apply filter_key_add.
Qed.
End partition.

(** The groups of a table hold every row exactly once. *)
Lemma groups_partition (g : string) (rows : list row) :
  Forall (keyed g) rows ->
  flat_map (fun v => members_of g v rows) (first_seen (group_values g rows)) ≡ₚ rows.
Proof.
  intros Hk. unfold members_of.
  rewrite (partition_by_key (fun r : row => dict_get (Some g) r))
    by apply NoDup_first_seen.
  rewrite filter_all; [done|].
  apply Forall_forall. intros r Hr.
  destruct (proj1 (Forall_forall _ _) Hk r Hr) as (c & Hc & _).
  rewrite Hc. apply list_elem_of_fmap.
  exists c. split; [done|]. rewrite elem_of_first_seen.
  apply elem_of_group_values. by exists r.
Qed.

Lemma omap_flat_map {X Y Z : Type} (f : Y -> option Z) (h : X -> list Y) (l : list X) :
  omap f (flat_map h l) = flat_map (fun x => omap f (h x)) l.
Proof.
  induction l as [|x l IH]; [done|]. simpl. by rewrite omap_app, IH.
Qed.

(** X3. No cell is lost and none is repeated: in every table that
    [get_data] accepts, the sequences that the mappings hold under a column
    of the header other than [Group] are, taken together, the cells of
    that column over all data rows. *)
Theorem get_data_keeps_every_cell
    (fields : list string) (rest : list (list string)) (ms : list mapping)
    (k : string) :
  get_data (fields :: rest) = Ok ms ->
  k ∈ fields -> k <> "Group" ->
  flat_map (fun m => default [] (dict_get (Some k) m)) ms
  ≡ₚ omap (dict_get (Some k)) (DictReader (fields :: rest)).
Proof.
  intros Hget Hk Hne.
  destruct (get_data_Ok_cases _ _ _ Hget) as [[Hg ->]|[Hrows ->]].
  - set (g := select_groupby (Some fields)) in *.
    set (rows := DictReader (fields :: rest)).
    assert (Hkeyed : Forall (keyed g) rows) by (by apply rows_keyed).
    rewrite <- (groups_partition g rows Hkeyed) at 2.
    rewrite omap_flat_map. unfold consolidated.
    rewrite flat_map_concat_map, map_map, <- flat_map_concat_map.
    assert (Heq : forall v, v ∈ first_seen (group_values g rows) ->
                   default [] (dict_get (Some k) (mapping_of g (members_of g v rows)))
                   = omap (dict_get (Some k)) (members_of g v rows)).
    { intros v Hv. rewrite elem_of_first_seen in Hv.
      rewrite mapping_of_column; [done|apply select_groupby_cases|done| |].
      - by apply members_of_nonempty.
      - apply members_of_Forall. by apply rows_have_column. }
    induction (first_seen (group_values g rows)) as [|v vs IH]; [done|].
    simpl. rewrite Heq by (by left). f_equiv. apply IH.
    intros v' Hv'. apply Heq. by right.
  - by rewrite Hrows.
Qed.

Lemma get_data_keeps_every_cell_witness :
  exists ms,
    get_data table_groups = Ok ms /\
    "Name" ∈ ["Group"; "EmailAddress"; "Name"] /\
    "Name" <> "Group" /\
    flat_map (fun m => default [] (dict_get (Some "Name") m)) ms
    ≡ₚ omap (dict_get (Some "Name")) (DictReader table_groups).
Proof.
  eexists.
  assert (Hget : get_data table_groups = Ok _) by reflexivity.
  assert (Hk : "Name" ∈ ["Group"; "EmailAddress"; "Name"]) by (right; right; by left).
  assert (Hne : "Name" <> "Group") by discriminate.
  split; [exact Hget|]. split; [exact Hk|]. split; [exact Hne|].
  exact (get_data_keeps_every_cell _ _ _ _ Hget Hk Hne).
Defined.

(** ** The reader: surplus fields, repeated columns, short records *)

Lemma None_kept (g : string) (ks : list (option string)) :
  None ∈ kept_keys g ks <-> None ∈ ks.
Proof.
  unfold kept_keys. destruct (bool_decide (casefold g = codepoints "group")); [|done].
  rewrite list_elem_of_filter. split; [tauto|]. intros H. split; [discriminate|done].
Qed.

Lemma next_row_surplus (fields record : list string) :
  None ∈ dict_keys (next_row fields record) <-> length fields < length record.
Proof.
  rewrite next_row_keys, elem_of_app, elem_of_first_seen, list_elem_of_fmap.
  destruct (length fields <? length record)%nat eqn:Hlong.
  - apply Nat.ltb_lt in Hlong. split; [done|]. intros _. right. by left.
  - apply Nat.ltb_ge in Hlong. split; [|lia].
    intros [(k & [=] & _)|Hin]. by apply elem_of_nil in Hin.
Qed.

(** X4. A mapping has the key [None] exactly when one of the member rows
    of its group has it, that is when one of their records has more fields
    than the header has columns. *)
Theorem get_data_surplus_key
    (fields : list string) (rest : list (list string)) (ms : list mapping) :
  get_data (fields :: rest) = Ok ms ->
  let g := select_groupby (Some fields) in
  let rows := DictReader (fields :: rest) in
  (forall record,
      None ∈ dict_keys (next_row fields record) <-> length fields < length record) /\
  Forall2 (fun v m =>
             None ∈ dict_keys m
             <-> Exists (fun r => None ∈ dict_keys r) (members_of g v rows))
          (first_seen (group_values g rows)) ms.
Proof.
  intros Hget g rows. split; [apply next_row_surplus|].
  destruct (get_data_Ok_cases _ _ _ Hget) as [[Hg ->]|[Hrows ->]].
  - fold g rows. apply consolidated_Forall2. intros v _.
    rewrite mapping_of_keys, None_kept, elem_of_first_seen, Exists_exists.
    rewrite list_elem_of_In, in_flat_map. split.
    + intros (r & Hr & Hk). exists r. by rewrite !list_elem_of_In.
    + intros (r & Hr & Hk). exists r. by rewrite <- !list_elem_of_In.
  - unfold rows. rewrite Hrows. simpl. constructor.
Qed.

Lemma get_data_surplus_key_witness :
  exists ms,
    get_data table_surplus_field = Ok ms /\
    let g := select_groupby (Some ["EmailAddress"; "Name"]) in
    let rows := DictReader table_surplus_field in
    (forall record,
        None ∈ dict_keys (next_row ["EmailAddress"; "Name"] record)
        <-> length ["EmailAddress"; "Name"] < length record) /\
    Forall2 (fun v m =>
               None ∈ dict_keys m
               <-> Exists (fun r => None ∈ dict_keys r) (members_of g v rows))
            (first_seen (group_values g rows)) ms.
Proof.
  eexists.
  assert (Hget : get_data table_surplus_field = Ok _) by reflexivity.
  split; [exact Hget|].
  exact (get_data_surplus_key _ _ _ Hget).
Defined.

Section written.
Context {K V : Type} `{EqDecision K}.

Lemma dict_get_foldl_other (k : K) (w : list (K * V)) (d : list (K * V)) :
  k ∉ map fst w ->
  dict_get k (foldl (fun d kv => dict_set (fst kv) (snd kv) d) d w) = dict_get k d.
Proof.
  revert d. induction w as [|[k' v'] w IH]; intros d Hk; [done|].
  simpl in *. rewrite not_elem_of_cons in Hk. destruct Hk as [Hne Hk].
  rewrite IH by done. rewrite dict_get_set. by rewrite decide_False by done.
Qed.

(** The last assignment to a key is the one that is read. *)
Lemma dict_get_foldl_written (k : K) (x : V) (w1 w2 : list (K * V)) (d : list (K * V)) :
  k ∉ map fst w2 ->
  dict_get k (foldl (fun d kv => dict_set (fst kv) (snd kv) d) d (w1 ++ (k, x) :: w2))
  = Some x.
Proof.
  intros Hk. rewrite foldl_app. simpl.
  rewrite dict_get_foldl_other by done. rewrite dict_get_set.
  by rewrite decide_True by done.
Qed.
End written.

(** The assignments that build a row, in order. *)
Lemma next_row_writes (fields record : list string) :
  next_row fields record
  = foldl (fun d kv => dict_set (fst kv) (snd kv) d) []
      (map (fun kv => (Some (fst kv), CStr (snd kv))) (zip fields record)
       ++ (if (length fields <? length record)%nat
           then [(None, CRest (drop (length fields) record))]
           else map (fun k => (Some k, CNone)) (drop (length record) fields))).
Proof.
  unfold next_row. rewrite foldl_app, !foldl_fmap. simpl.
  destruct (length fields <? length record)%nat eqn:Hlong; [done|].
  destruct (length record <? length fields)%nat eqn:Hshort.
  - by rewrite foldl_fmap.
  - apply Nat.ltb_ge in Hshort. by rewrite drop_ge by done.
Qed.

Lemma elem_of_take_inv {X : Type} (n : nat) (l : list X) (x : X) :
  x ∈ take n l -> x ∈ l.
Proof. intros Hx. rewrite <- (take_drop n l), elem_of_app. by left. Qed.

Lemma elem_of_drop_inv {X : Type} (n : nat) (l : list X) (x : X) :
  x ∈ drop n l -> x ∈ l.
Proof. intros Hx. rewrite <- (take_drop n l), elem_of_app. by right. Qed.

Lemma next_row_last_write (record pre post : list string) (k : string) :
  k ∉ post ->
  dict_get (Some k) (next_row (pre ++ k :: post) record)
  = Some (match record !! length pre with
          | Some v => CStr v
          | None => CNone
          end).
Proof.
  intros Hk. rewrite next_row_writes.
  set (f := fun kv : string * string => (Some (fst kv), CStr (snd kv))).
  set (h := fun k : string => (Some k, CNone)).
  assert (Hzip : forall r, Some k ∉ map fst (map f (zip post r))).
  { intros r. rewrite map_map. simpl. rewrite list_elem_of_fmap.
    intros ([k' v'] & [= <-] & Hin). apply Hk.
    apply (elem_of_take_inv (length r)). rewrite <- fst_zip_take.
    apply list_elem_of_fmap. by exists (k, v'). }
  rewrite zip_with_app_l, map_app.
  destruct (record !! length pre) as [v|] eqn:Hv.
  - rewrite (drop_S _ _ _ Hv). cbn [zip_with map]. rewrite <- !app_assoc. simpl.
    apply dict_get_foldl_written.
    rewrite map_app, elem_of_app. intros [Hin|Hin]; [by apply (Hzip _ Hin)|].
    destruct (length (pre ++ k :: post) <? length record)%nat.
    + simpl in Hin. apply list_elem_of_singleton in Hin. discriminate Hin.
    + rewrite map_map in Hin. simpl in Hin.
      apply list_elem_of_fmap in Hin as (k' & [= <-] & Hin).
      apply lookup_lt_Some in Hv.
      rewrite drop_app_ge in Hin by lia.
      replace (length record - length pre) with (S (length record - length pre - 1))
        in Hin by lia.
      simpl in Hin. apply Hk. by apply elem_of_drop_inv in Hin.
  - apply lookup_ge_None in Hv.
    rewrite (drop_ge record) by done.
    replace (zip_with pair (k :: post) []) with (@nil (string * string)) by done.
    simpl. rewrite app_nil_r.
    assert (Hlen : (length (pre ++ k :: post) <? length record)%nat = false).
    { apply Nat.ltb_ge. rewrite length_app. simpl. lia. }
    rewrite Hlen, drop_app_le, map_app by done. simpl.
    rewrite app_assoc. apply dict_get_foldl_written.
    rewrite map_map. simpl. rewrite list_elem_of_fmap.
    intros (k' & [= <-] & Hin). done.
Qed.

(** X5. What a row holds under a column: the field of the record at the
    position of the last occurrence of the column in the header (a
    repeated column keeps its last field), or [None] when the record is
    too short to have that field. *)
Theorem reader_last_column_wins
    (rest : list (list string)) (pre post : list string) (k : string) :
  k ∉ post ->
  Forall2 (fun record r =>
             dict_get (Some k) r
             = Some (match record !! length pre with
                     | Some v => CStr v
                     | None => CNone
                     end))
          (filter (fun r => negb (blank r)) rest)
          (DictReader ((pre ++ k :: post) :: rest)).
Proof.
  intros Hk. simpl.
  induction (filter (fun r => negb (blank r)) rest) as [|record l IH]; simpl.
  - constructor.
  - constructor; [by apply next_row_last_write|exact IH].
Qed.

Lemma reader_last_column_wins_witness :
  ("Name" ∉ @nil string) /\
  Forall2 (fun record r =>
             dict_get (Some "Name") r
             = Some (match record !! length ["EmailAddress"; "Name"] with
                     | Some v => CStr v
                     | None => CNone
                     end))
          (filter (fun r => negb (blank r)) [ ["a@x"; "Al"; "Alan"] ])
          (DictReader ((["EmailAddress"; "Name"] ++ "Name" :: []) :: [ ["a@x"; "Al"; "Alan"] ])).
Proof.
  assert (Hk : "Name" ∉ @nil string) by apply not_elem_of_nil.
  split; [exact Hk|].
  exact (reader_last_column_wins [ ["a@x"; "Al"; "Alan"] ]
           ["EmailAddress"; "Name"] [] "Name" Hk).
Defined.

Example get_data_duplicate_column :
  get_data table_duplicate_column
  = Ok [ [ (Some "EmailAddress", [CStr "a@x"]); (Some "Name", [CStr "Alan"]) ] ].
Proof. reflexivity. Qed.

(** ** send_batch: what is transmitted *)

Lemma kwargs_surplus (m : mapping) :
  None ∈ dict_keys m -> kwargs m = Raise (TypeError "keywords must be strings").
Proof.
  unfold dict_keys. induction m as [|[[k|] v] m IH]; simpl; intros Hin.
  - by apply elem_of_nil in Hin.
  - rewrite elem_of_cons in Hin. destruct Hin as [Hin|Hin]; [discriminate|].
    by rewrite IH.
  - done.
Qed.


Lemma groupby_in_header (fields : list string) :
  "Group" ∈ fields \/ "EmailAddress" ∈ fields ->
  select_groupby (Some fields) ∈ fields.
Proof.
  intros Hcol. destruct (decide ("Group" ∈ fields)) as [HG|HG].
  - by rewrite select_groupby_Group.
  - destruct Hcol as [HG'|HE]; [done|].
    rewrite select_groupby_EmailAddress; [done|done|].
    intros ->. by apply elem_of_nil in HE.
Qed.

Section batch_more.
Context {L : Libraries}.

Lemma compose_envelope (sender : string) (recipients : list cell) (body : string)
    (m : message) :
  compose sender recipients body = Ok m ->
  msg_From m = sender /\
  msg_To m = recipients /\
  msg_alternative m = gfm_to_html body.
Proof.
  unfold compose. destruct (set_header sender) as [[]|e]; [|done]. cbn [bind].
  destruct (find_string is_subject_comment _) as [[cls x]|].
  - destruct (truthy_str x).
    + destruct (set_header _) as [[]|e]; [|done]. simpl. by intros [= <-].
    + simpl. by intros [= <-].
  - simpl. by intros [= <-].
Qed.

(** Without an established session nothing is transmitted. *)
Lemma send_batch_no_session (data : list mapping) (tpl : template)
    (username password : string) (sender : option string) :
  connect <> None \/ starttls <> None \/ login username password <> None ->
  exists e, send_batch data tpl username password sender = (Raise e, Smtp false []).
Proof.
  intros Hfail. unfold send_batch, io_check, io_bind, io_raise, io_ret.
  destruct connect as [e|]; [by exists e|].
  destruct starttls as [e|].
  { simpl. destruct (quit []) as [e'|]; by eexists. }
  destruct (login username password) as [e|].
  - simpl. destruct (quit []) as [e'|]; by eexists.
  - destruct Hfail as [H|[H|H]]; done.
Qed.

Lemma session_cases (username password : string) :
  (connect = None /\ starttls = None /\ login username password = None) \/
  (connect <> None \/ starttls <> None \/ login username password <> None).
Proof.
  destruct connect; [right; left; done|].
  destruct starttls; [right; right; left; done|].
  destruct (login username password); [right; right; right; done|by left].
Qed.

(** The loop transmits the messages of a prefix of its mappings. *)
Lemma io_for_prefix (tpl : template) (sender : string) (rows : list mapping) (s : smtp) :
  exists n ms,
    n <= length rows /\
    snd (io_for rows (send_row tpl sender) s) = Smtp (is_open s) (outbox s ++ ms) /\
    Forall2 (delivered tpl sender) (take n rows) ms /\
    (fst (io_for rows (send_row tpl sender) s) = Ok tt -> n = length rows).
Proof.
  revert s. induction rows as [|r rows IH]; intros s.
  - exists 0, []. simpl. rewrite app_nil_r. destruct s. repeat split; [lia|constructor].
  - simpl. unfold io_bind. rewrite send_row_cases.
    assert (Hstop : forall e,
               exists n ms,
                 n <= S (length rows) /\
                 snd (@Raise unit e, s) = Smtp (is_open s) (outbox s ++ ms) /\
                 Forall2 (delivered tpl sender) (take n (r :: rows)) ms /\
                 (fst (@Raise unit e, s) = Ok tt -> n = S (length rows))).
    { intros e. exists 0, []. simpl. rewrite app_nil_r. destruct s.
      repeat split; [lia|constructor|discriminate]. }
    destruct (kw <- kwargs r ;; render tpl kw) as [body|e] eqn:Hbody; [|apply Hstop].
    destruct (dict_get (Some "EmailAddress") r) as [recipients|] eqn:Hto; [|apply Hstop].
    destruct (compose sender recipients body) as [m|e] eqn:Hm; [|apply Hstop].
    destruct (send_message (outbox s) m) eqn:Hsend; [apply Hstop|].
    destruct (IH (Smtp (is_open s) (outbox s ++ [m])))
      as (n & ms & Hn & Hsnd & Hms & Hok).
    exists (S n), (m :: ms). simpl in *.
    split; [lia|]. split; [by rewrite Hsnd, <- app_assoc|]. split.
    + constructor; [|done]. by exists body, recipients.
    + intros H. by rewrite Hok.
Qed.

(** X6. Whatever the libraries do, the messages that [send_batch] has
    transmitted are those of the first mappings of the batch, one for each
    and in the order of the batch; when [send_batch] returns without error
    every mapping has its message. *)
Theorem send_batch_transmits_a_prefix
    (data : list mapping) (tpl : template)
    (username password : string) (sender : option string) :
  exists n,
    n <= length data /\
    Forall2 (delivered tpl (default username sender)) (take n data)
            (outbox (snd (send_batch data tpl username password sender))) /\
    (fst (send_batch data tpl username password sender) = Ok tt -> n = length data).
Proof.
  destruct (session_cases username password) as [(Hc & Ht & Hl)|Hno].
  - rewrite send_batch_session by done. cbv zeta. cbn [fst snd].
    destruct (io_for_prefix tpl (default username sender) data (Smtp true []))
      as (n & ms & Hn & Hsnd & Hms & Hok).
    exists n. rewrite Hsnd. simpl. split; [done|]. split; [done|].
    destruct (quit ms); [discriminate|]. exact Hok.
  - destruct (send_batch_no_session data tpl username password sender Hno) as (e & ->).
    exists 0. simpl. repeat split; [lia|constructor|discriminate].
Qed.

(** X7. Every message that [send_batch] has transmitted is from the sender
    given, or from the user name when none is given, and is addressed to
    the [EmailAddress] entry of a mapping of the batch. *)
Theorem send_batch_envelopes
    (data : list mapping) (tpl : template)
    (username password : string) (sender : option string) (m : message) :
  m ∈ outbox (snd (send_batch data tpl username password sender)) ->
  msg_From m = default username sender /\
  exists r, r ∈ data /\ dict_get (Some "EmailAddress") r = Some (msg_To m).
Proof.
  destruct (session_cases username password) as [(Hc & Ht & Hl)|Hno].
  - rewrite send_batch_session by done. cbv zeta. cbn [fst snd].
    destruct (io_for_prefix tpl (default username sender) data (Smtp true []))
      as (n & ms & Hn & Hsnd & Hms & Hok).
    rewrite Hsnd. simpl. intros Hm.
    apply list_elem_of_lookup in Hm as [i Hi].
    destruct (Forall2_lookup_r _ _ _ _ _ Hms Hi)
      as (r & Hr & body & recipients & _ & Hto & Hcompose).
    destruct (compose_envelope _ _ _ _ Hcompose) as (HF & HT & _).
    split; [done|]. exists r. rewrite HT. split; [|done].
    apply (elem_of_take_inv n). by apply list_elem_of_lookup_2 in Hr.
  - destruct (send_batch_no_session data tpl username password sender Hno) as (e & ->).
    simpl. intros Hm. by apply elem_of_nil in Hm.
Qed.

(** X8. When the session cannot be opened, [send_batch] ends with the
    error of the connection; when it cannot be secured or logged in to,
    the session is left with QUIT and [send_batch] ends with the error of
    QUIT when the relay refuses it, with the error of the step otherwise.
    In every case nothing is transmitted, whatever the batch. *)
Theorem send_batch_without_session
    (data : list mapping) (tpl : template)
    (username password : string) (sender : option string) (e : exn) :
  connect = Some e \/
  (connect = None /\ starttls = Some e) \/
  (connect = None /\ starttls = None /\ login username password = Some e) ->
  send_batch data tpl username password sender
  = (Raise (match connect with
            | Some _ => e
            | None => default e (quit [])
            end),
     Smtp false []).
Proof.
  intros Hfail. unfold send_batch, io_check, io_bind, io_raise, io_ret.
  destruct Hfail as [->|[[-> ->]|(-> & -> & ->)]]; [done| |];
    simpl; by destruct (quit []).
Qed.
End batch_more.

Lemma send_batch_envelopes_witness :
  let m := message_al in
  m ∈ outbox (snd (send_batch (L := demo_libraries)
                     ([mapping_al] ++ mapping_nameless :: [mapping_al])
                     demo_tpl "me@x" "secret" None)) /\
  msg_From m = default "me@x" None /\
  exists r,
    r ∈ [mapping_al] ++ mapping_nameless :: [mapping_al] /\
    dict_get (Some "EmailAddress") r = Some (msg_To m).
Proof.
  intros m.
  assert (Hm : m ∈ outbox (snd (send_batch (L := demo_libraries)
                                  ([mapping_al] ++ mapping_nameless :: [mapping_al])
                                  demo_tpl "me@x" "secret" None))).
  { vm_compute. by left. }
  split; [exact Hm|].
  exact (send_batch_envelopes (L := demo_libraries) _ _ _ _ _ _ Hm).
Defined.

Lemma send_batch_without_session_witness :
  (connect (Libraries := locked_libraries) = Some (SMTPException "authentication failed") \/
   (connect (Libraries := locked_libraries) = None /\
    starttls (Libraries := locked_libraries) = Some (SMTPException "authentication failed")) \/
   (connect (Libraries := locked_libraries) = None /\
    starttls (Libraries := locked_libraries) = None /\
    login (Libraries := locked_libraries) "me@x" "secret"
    = Some (SMTPException "authentication failed"))) /\
  send_batch (L := locked_libraries) [mapping_al] "Hi" "me@x" "secret" None
  = (Raise (SMTPException "authentication failed"), Smtp false []).
Proof.
  assert (H : connect (Libraries := locked_libraries)
              = Some (SMTPException "authentication failed") \/
              (connect (Libraries := locked_libraries) = None /\
               starttls (Libraries := locked_libraries)
               = Some (SMTPException "authentication failed")) \/
              (connect (Libraries := locked_libraries) = None /\
               starttls (Libraries := locked_libraries) = None /\
               login (Libraries := locked_libraries) "me@x" "secret"
               = Some (SMTPException "authentication failed"))).
  { right. right. by repeat split. }
  split; [exact H|].
  exact (send_batch_without_session (L := locked_libraries) [mapping_al] "Hi"
           "me@x" "secret" None _ H).
Defined.

(** A relay that refuses both the login and QUIT: the error of QUIT is the
    one that [send_batch] ends with. *)
Example send_batch_login_then_quit_refused :
  send_batch (L := lost_libraries) [mapping_al] "Hi" "me@x" "secret" None
  = (Raise (SMTPException "QUIT refused"), Smtp false []).
Proof. reflexivity. Qed.

(** ** get_data followed by send_batch *)

Lemma consolidated_no_column (fields : list string) (rest : list (list string))
    (k : string) :
  k ∉ fields ->
  Forall (fun m => dict_get (Some k) m = None)
         (consolidated (select_groupby (Some fields)) (DictReader (fields :: rest))).
Proof.
  intros Hk. apply Forall_forall. intros m Hm. unfold consolidated in Hm.
  apply list_elem_of_fmap in Hm as (v & -> & _).
  apply dict_get_None. rewrite mapping_of_keys. intros Hin.
  apply kept_keys_subseteq in Hin. rewrite elem_of_first_seen in Hin.
  apply list_elem_of_In, in_flat_map in Hin as (r & Hr & Hin).
  apply list_elem_of_In, elem_of_members_of in Hr as [Hr _].
  apply list_elem_of_In in Hin. simpl in Hr.
  apply list_elem_of_fmap in Hr as (record & -> & _).
  by apply next_row_has_column in Hin.
Qed.


Lemma consolidated_head (g : string) (r : row) (rows : list row) (v : cell) :
  dict_get (Some g) r = Some v ->
  exists ms,
    consolidated g (r :: rows) = mapping_of g (members_of g v (r :: rows)) :: ms /\
    r ∈ members_of g v (r :: rows).
Proof.
  intros Hv. unfold consolidated, group_values. simpl. rewrite Hv. simpl.
  eexists. split; [done|]. apply elem_of_members_of. split; [by left|done].
Qed.

Section pipeline_more.
Context {L : Libraries}.


(** X9. A table without an [EmailAddress] column is accepted by [get_data]
    when it has a [Group] column, but no message is ever transmitted for
    it: [send_batch] on its mappings transmits nothing and, when there is a
    mapping, ends with an error. *)
Theorem no_address_column_no_message
    (fields : list string) (rest : list (list string)) (ms : list mapping)
    (tpl : template) (username password : string) (sender : option string) :
  "EmailAddress" ∉ fields ->
  get_data (fields :: rest) = Ok ms ->
  outbox (snd (send_batch ms tpl username password sender)) = [] /\
  (ms <> [] -> exists e, fst (send_batch ms tpl username password sender) = Raise e).
Proof.
  intros HE Hget.
  assert (Hall : Forall (fun m => dict_get (Some "EmailAddress") m = None) ms).
  { destruct (get_data_Ok_cases _ _ _ Hget) as [[_ ->]|[_ ->]]; [|constructor].
    by apply consolidated_no_column. }
  destruct (session_cases username password) as [(Hc & Ht & Hl)|Hno].
  - rewrite send_batch_session by done. cbv zeta.
    destruct Hall as [|m ms' Hm _]; [by split|].
    cbn [io_for]. unfold io_bind. rewrite send_row_cases, Hm.
    destruct (kw <- kwargs m ;; render tpl kw) as [body|e]; simpl.
    + split; [done|]. intros _. destruct (quit []); by eexists.
    + split; [done|]. intros _. destruct (quit []); by eexists.
  - destruct (send_batch_no_session ms tpl username password sender Hno) as (e & ->).
    simpl. split; [done|]. intros _. by exists e.
Qed.

(** X10. A surplus field stops the batch: when the first data record has
    more fields than the header has columns, the first mapping has the key
    [None], its keyword expansion raises [TypeError] before the template is
    rendered, and nothing is transmitted; [send_batch] ends with that
    error, or with the error of QUIT when the relay refuses it. *)
Theorem surplus_field_stops_batch
    (fields record : list string) (rest : list (list string))
    (tpl : template) (username password : string) (sender : option string) :
  length fields < length record ->
  "Group" ∈ fields \/ "EmailAddress" ∈ fields ->
  connect = None -> starttls = None -> login username password = None ->
  exists ms,
    get_data (fields :: record :: rest) = Ok ms /\
    send_batch ms tpl username password sender
    = (Raise (default (TypeError "keywords must be strings") (quit [])),
       Smtp false []).
Proof.
  intros Hlong Hcol Hc Ht Hl.
  pose proof (groupby_in_header fields Hcol) as Hg.
  rewrite get_data_consolidated by done.
  set (g := select_groupby (Some fields)) in *.
  eexists. split; [done|].
  assert (Hrows : exists rows,
             DictReader (fields :: record :: rest) = next_row fields record :: rows).
  { simpl. destruct record as [|x record]; [simpl in Hlong; lia|].
    rewrite filter_cons_True by done. by eexists. }
  destruct Hrows as [rows Hrows]. rewrite Hrows.
  assert (Hk : keyed g (next_row fields record)).
  { pose proof (rows_keyed fields (record :: rest) g Hg) as Hall.
    rewrite Hrows in Hall. by apply Forall_cons in Hall as [Hr _]. }
  destruct Hk as (v & Hv & _).
  destruct (consolidated_head g _ rows v Hv) as (ms' & -> & Hin).
  rewrite send_batch_session by done. cbv zeta.
  cbn [io_for]. unfold io_bind.
  rewrite send_row_cases, kwargs_surplus; [simpl; by destruct (quit [])|].
  rewrite mapping_of_keys, None_kept, elem_of_first_seen.
  apply list_elem_of_In, in_flat_map. exists (next_row fields record).
  split; [by apply list_elem_of_In|].
  apply list_elem_of_In. by apply next_row_surplus.
Qed.

End pipeline_more.

Lemma no_address_column_no_message_witness :
  exists ms,
    ("EmailAddress" ∉ ["Group"; "Name"]) /\
    get_data table_no_address = Ok ms /\
    outbox (snd (send_batch (L := plain_libraries) ms "Hi" "me@x" "secret" None)) = [] /\
    (ms <> [] ->
     exists e, fst (send_batch (L := plain_libraries) ms "Hi" "me@x" "secret" None)
               = Raise e).
Proof.
  eexists.
  assert (HE : "EmailAddress" ∉ ["Group"; "Name"]).
  { apply (bool_decide_unpack _). by vm_compute. }
  assert (Hget : get_data table_no_address = Ok _) by reflexivity.
  split; [exact HE|]. split; [exact Hget|].
  exact (no_address_column_no_message (L := plain_libraries) _ _ _
           "Hi" "me@x" "secret" None HE Hget).
Defined.

Lemma surplus_field_stops_batch_witness :
  length ["EmailAddress"; "Name"] < length ["a@x"; "Al"; "extra"] /\
  ("Group" ∈ ["EmailAddress"; "Name"] \/ "EmailAddress" ∈ ["EmailAddress"; "Name"]) /\
  connect (Libraries := plain_libraries) = None /\
  starttls (Libraries := plain_libraries) = None /\
  login (Libraries := plain_libraries) "me@x" "secret" = None /\
  exists ms,
    get_data table_surplus_field = Ok ms /\
    send_batch (L := plain_libraries) ms "Hi" "me@x" "secret" None
    = (Raise (default (TypeError "keywords must be strings")
                      (quit (Libraries := plain_libraries) [])),
       Smtp false []).
Proof.
  assert (Hlong : length ["EmailAddress"; "Name"] < length ["a@x"; "Al"; "extra"])
    by (simpl; lia).
  assert (Hcol : "Group" ∈ ["EmailAddress"; "Name"]
                 \/ "EmailAddress" ∈ ["EmailAddress"; "Name"]) by (right; by left).
  split; [exact Hlong|]. split; [exact Hcol|].
  split; [reflexivity|]. split; [reflexivity|]. split; [reflexivity|].
  exact (surplus_field_stops_batch (L := plain_libraries)
           ["EmailAddress"; "Name"] ["a@x"; "Al"; "extra"] [ ["a@x"; "Ann"] ]
           "Hi" "me@x" "secret" None Hlong Hcol eq_refl eq_refl eq_refl).
Defined.


(** ** send: text, subject *)





Lemma lstrip_suffix (t : string) : exists u, t = (u ++ lstrip t)%string.
Proof.
  induction t as [|c t [u IH]]; [by exists EmptyString|].
  simpl. destruct (isspace c).
  - exists (String c u). change (String c t = String c (u ++ lstrip t))%string.
    by rewrite <- IH.
  - by exists EmptyString.
Qed.

Lemma contains_char_split (sep : ascii) (x : string) :
  contains_char sep x = true ->
  exists a b, x = (a ++ String sep b)%string /\ contains_char sep a = false.
Proof.
  induction x as [|c x IH]; [discriminate|].
  simpl. destruct (Ascii.eqb c sep) eqn:Hc.
  - apply Ascii.eqb_eq in Hc as ->. intros _. by exists EmptyString, x.
  - simpl. intros Hx. destruct (IH Hx) as (a & b & -> & Ha).
    exists (String c a), b. split; [done|]. simpl. by rewrite Hc.
Qed.

Lemma last_item_suffix (sep : ascii) (x : string) :
  exists u, x = (u ++ last_item (split_once sep x))%string.
Proof.
  destruct (contains_char sep x) eqn:Hx.
  - destruct (contains_char_split sep x Hx) as (a & b & -> & Ha).
    rewrite split_once_found by done.
    exists (a ++ String sep EmptyString)%string. unfold last_item. simpl.
    by rewrite append_assoc.
  - rewrite split_once_absent by done. by exists EmptyString.
Qed.

Lemma strip_occurs (sep : ascii) (x : string) :
  occurs_in (strip (last_item (split_once sep x))) x.
Proof.
  destruct (last_item_suffix sep x) as [u1 Hx].
  set (t := last_item (split_once sep x)) in *.
  destruct (lstrip_suffix t) as [u2 Ht].
  destruct (rstrip_prefix (lstrip t)) as [w Hl].
  exists (u1 ++ u2)%string, w. unfold strip.
  rewrite append_assoc, <- Hl, <- Ht. exact Hx.
Qed.

Section send_more.
Context {L : Libraries}.

Lemma find_string_accepted (p : string_class -> string -> bool) (soup : node)
    (cls : string_class) (x : string) :
  find_string p soup = Some (cls, x) -> p cls x = true.
Proof.
  rewrite find_string_first_accepted.
  induction (find_all_strings soup) as [|[c y] l IH]; [discriminate|].
  simpl. destruct (p c y) eqn:Hy; [|exact IH].
  by intros [= -> ->].
Qed.



(** X14. The subject of a composed message is taken from the comment that
    the search finds: it is a part of the text of that comment, and it is
    empty when the search finds none. *)
Theorem compose_subject_comes_from_comment
    (sender : string) (recipients : list cell) (body : string) (msg : message) :
  let soup := Tag "[document]" [] (BeautifulSoup (gfm_to_html body)) in
  compose sender recipients body = Ok msg ->
  match find_string is_subject_comment soup with
  | Some (cls, x) => cls = Comment /\ occurs_in (msg_Subject msg) x
  | None => msg_Subject msg = EmptyString
  end.
Proof.
  intros soup. unfold compose. fold soup.
  destruct (set_header sender) as [[]|e]; [|done]. cbn [bind].
  destruct (find_string is_subject_comment soup) as [[cls x]|] eqn:Hfind.
  - pose proof (find_string_accepted _ _ _ _ Hfind) as Hx.
    assert (Hcls : cls = Comment) by (by destruct cls).
    subst cls. rewrite (is_subject_comment_truthy x Hx).
    destruct (set_header _) as [[]|e]; [|done]. simpl. intros [= <-]. simpl.
    split; [done|]. apply strip_occurs.
  - simpl. by intros [= <-].
Qed.
End send_more.



Lemma compose_subject_comes_from_comment_witness :
  let soup := Tag "[document]" []
                (BeautifulSoup (Libraries := demo_libraries)
                   (gfm_to_html (Libraries := demo_libraries) body_one_subject)) in
  compose (L := demo_libraries) "me@x" [CStr "a@x"] body_one_subject = Ok message_al /\
  match find_string is_subject_comment soup with
  | Some (cls, x) => cls = Comment /\ occurs_in (msg_Subject message_al) x
  | None => msg_Subject message_al = EmptyString
  end.
Proof.
  intros soup.
  assert (Hmsg : compose (L := demo_libraries) "me@x" [CStr "a@x"] body_one_subject
                 = Ok message_al) by reflexivity.
  split; [exact Hmsg|].
  exact (compose_subject_comes_from_comment (L := demo_libraries) _ _ _ _ Hmsg).
Defined.

Example compose_other_comment_in_text :
  exists msg,
    compose (L := plain_libraries) "me@x" [CStr "a@x"] "<p>Hi</p><!-- note -->" = Ok msg /\
    msg_content msg = "Hi note ".
Proof. by eexists. Qed.

(** A sender with a line break in it is refused before the body is looked
    at. *)
Example compose_sender_refused :
  compose (L := plain_libraries) ("me@x" ++ newline ++ "Bcc: you@x") [CStr "a@x"] "Hi"
  = Raise header_error.
Proof. reflexivity. Qed.

(** ** The subject filter and case *)

(** X15. The subject filter does not see case, and sees nothing else: it
    accepts the comments whose text is whitespace, then the seven letters
    of [subject], each small or capital, then anything, and no other
    string. The other code points that folding changes make no match; the
    sharp s, which folds to two letters s, does not stand for the letter
    s. *)
Theorem is_subject_comment_ignores_case (cls : string_class) (x : string) :
  is_subject_comment cls x = true <-> cls = Comment /\ subject_directive x.
Proof.
  destruct cls; try (by split; [intros [=]|intros [[=] _]]).
  rewrite is_subject_comment_directive. tauto.
Qed.

Example sharp_s_is_no_letter_s :
  let sharp_s := String (ascii_of_nat 223) EmptyString in
  casefold sharp_s = [115; 115] /\
  is_subject_comment Comment (sharp_s ++ "ubject: Hello") = false /\
  is_subject_comment Comment "SUBJECT: Hello" = true.
Proof. by repeat split. Qed.

(** ** run *)

(** X16. [run] loads the template, then reads the table, and creates a
    session only afterwards: for a table whose header has neither [Group]
    nor [EmailAddress] and that has a data record, it ends with the
    [KeyError] of [get_data] and no session is created, although the
    template was loaded. *)
Theorem run_rejects_table_before_session
    {L : Libraries} (get_template : string -> result template)
    (read_csv : string -> list (list string))
    (args : arguments) (environ : list (string * string))
    (tpl : template) (fields : list string) (rest : list (list string)) :
  get_template (msgfile args) = Ok tpl ->
  read_csv (csvfile args) = fields :: rest ->
  "Group" ∉ fields -> "EmailAddress" ∉ fields ->
  Exists (fun r => blank r = false) rest ->
  run get_template read_csv args environ
  = (Raise (KeyError (match fields with [] => "Group" | _ :: _ => "EmailAddress" end)),
     None).
Proof.
  intros Htpl Hcsv HG HE Hrow. unfold run. rewrite Htpl, Hcsv.
  assert (Hsel : select_groupby (Some fields)
                 = match fields with [] => "Group" | _ :: _ => "EmailAddress" end).
  { destruct fields as [|f fields]; [done|]. by apply select_groupby_EmailAddress. }
  rewrite get_data_missing_column.
  - by rewrite Hsel.
  - rewrite Hsel. by destruct fields.
  - by apply rows_not_blank.
Qed.

Lemma run_rejects_table_before_session_witness :
  let get_template := fun _ : string => @Ok (template (Libraries := plain_libraries)) "Hi" in
  let read_csv := fun _ : string => table_no_required_column in
  let args := Args "message.md" "people.csv" None in
  get_template (msgfile args) = Ok "Hi" /\
  read_csv (csvfile args) = ["Name"] :: [ ["Al"] ] /\
  ("Group" ∉ ["Name"]) /\ ("EmailAddress" ∉ ["Name"]) /\
  Exists (fun r => blank r = false) [ ["Al"] ] /\
  run (L := plain_libraries) get_template read_csv args []
  = (Raise (KeyError "EmailAddress"), None).
Proof.
  intros get_template read_csv args.
  assert (HG : "Group" ∉ ["Name"]) by (apply (bool_decide_unpack _); by vm_compute).
  assert (HE : "EmailAddress" ∉ ["Name"]) by (apply (bool_decide_unpack _); by vm_compute).
  assert (Hrow : Exists (fun r => blank r = false) [ ["Al"] ]) by (by left).
  split; [reflexivity|]. split; [reflexivity|].
  split; [exact HG|]. split; [exact HE|]. split; [exact Hrow|].
  exact (run_rejects_table_before_session (L := plain_libraries)
           get_template read_csv args [] "Hi" ["Name"] [ ["Al"] ]
           eq_refl eq_refl HG HE Hrow).
Defined.
